(** * The Specification / Filter / Repository layer of the user backend

    A shallow embedding of [app/crud/specification.py], [app/crud/filter.py],
    [app/crud/user.py] and [app/core/security/password.py], together with the
    parts of [app/schemas/user.py] and [app/models/user.py] they touch.

    Python coroutines are embedded as computations in a state-and-exception
    monad over a [World]: the single SQLAlchemy session the repository holds
    (every [async with] in the sources binds that same object), the records
    emitted through [logging], and the entropy the password hasher draws its
    salt from. *)

From Stdlib Require Import ZArith Ascii String List Lia.
From stdpp Require Import base option list strings gmap fin_maps.

Local Open Scope string_scope.

(** ** Python values and exceptions *)

(** The values that flow through [Specification.value] (annotated [Any]). *)
Inductive PyVal : Type :=
| VNone
| VInt (z : Z)
| VStr (s : string).

#[global] Instance PyVal_eq_dec : EqDecision PyVal.
Proof. solve_decision. Defined.

(** The members of the [sqlalchemy.exc.SQLAlchemyError] family the layer can
    meet.  [NoResultFound] and [MultipleResultsFound] are what [Result.one]
    raises; [IntegrityError] is a rejected flush; [DBAPIError] stands for any
    failure of a driver round trip. *)
Inductive SQLAlchemyError : Type :=
| NoResultFound
| MultipleResultsFound
| IntegrityError (msg : string)
| DBAPIError (msg : string).

(** [str(exc)] *)
Definition str (e : SQLAlchemyError) : string :=
  match e with
  | NoResultFound => "No row was found when one was required"
  | MultipleResultsFound =>
      "Multiple rows were found when exactly one was required"
  | IntegrityError msg => msg
  | DBAPIError msg => msg
  end.

(** The exception classes raised or caught in the embedded sources.
    Modelled from the spec: the class [DatabaseException] of
    [app/core/security/exception.py] is not among the sources; it is the
    single domain error of the repository and carries a message. *)
Inductive Exc : Type :=
| SAError (e : SQLAlchemyError)
| ValueError (msg : string)
| DatabaseException (msg : string).

Inductive result (A : Type) : Type :=
| Ok (a : A)
| Raise (e : Exc).
Arguments Ok {A} a.
Arguments Raise {A} e.

(** ** Schemas and models *)

(** Modelled from the spec: the enumeration [Gender] of
    [app/schemas/gender.py] is not among the sources (male, female, other). *)
Inductive Gender : Type := MALE | FEMALE | OTHER.

(** [datetime.date] as (year, month, day); [datetime.datetime] as a
    timestamp. *)
Definition date : Type := (Z * Z * Z)%type.
Definition datetime : Type := Z.

Module Schemas.

(** [UserCreate] and its subclass [UserSuperCreate] ([app/schemas/user.py]).
    [is_superuser] is [None] for a plain [UserCreate], which does not declare
    the field, and [Some b] for a [UserSuperCreate]. *)
Record UserCreate : Type := {
  username : string;
  email : string;
  first_name : string;
  last_name : string;
  middle_name : option string;
  gender : option Gender;
  birthdate : option date;
  phone_number : option string;
  city : option string;
  country : option string;
  password : string;
  is_superuser : option bool
}.

(** [user.copy(update={"password": hashed_password})] *)
Definition copy_update_password (user : UserCreate) (hashed_password : string)
  : UserCreate :=
  {| username := username user;
     email := email user;
     first_name := first_name user;
     last_name := last_name user;
     middle_name := middle_name user;
     gender := gender user;
     birthdate := birthdate user;
     phone_number := phone_number user;
     city := city user;
     country := country user;
     password := hashed_password;
     is_superuser := is_superuser user |}.

(** The length bounds [Field(min_length=.., max_length=..)] puts on the
    username and on the plaintext password of a create input.  The pattern
    constraints of the schema only narrow this set further. *)
Definition valid (user : UserCreate) : Prop :=
  (4 <= String.length (username user) <= 15)%nat /\
  (8 <= String.length (password user) <= 14)%nat.

End Schemas.

Module Models.

(** The ORM class [User] of [app/models/user.py].  An attribute that was not
    passed to the constructor is [None] until the flush fills it in. *)
Record User : Type := {
  id : option Z;
  username : string;
  email : string;
  first_name : string;
  middle_name : option string;
  last_name : string;
  password : string;
  gender : option Gender;
  birthdate : option date;
  phone_number : option string;
  city : option string;
  country : option string;
  is_active : option bool;
  is_superuser : option bool;
  created_at : option datetime;
  updated_at : option datetime
}.

(** The constructor call of [create_user], [User] applied to the unpacked
    [user_in.dict()]: the declarative constructor sets exactly the attributes
    named by the keyword arguments. *)
Definition init (kwargs : Schemas.UserCreate) : User :=
  {| id := None;
     username := Schemas.username kwargs;
     email := Schemas.email kwargs;
     first_name := Schemas.first_name kwargs;
     middle_name := Schemas.middle_name kwargs;
     last_name := Schemas.last_name kwargs;
     password := Schemas.password kwargs;
     gender := Schemas.gender kwargs;
     birthdate := Schemas.birthdate kwargs;
     phone_number := Schemas.phone_number kwargs;
     city := Schemas.city kwargs;
     country := Schemas.country kwargs;
     is_active := None;
     is_superuser := Schemas.is_superuser kwargs;
     created_at := None;
     updated_at := None |}.

(** The row written by a flush: the primary key drawn for it and the column
    defaults ([default=True], [default=False], [default=datetime.now()]) for
    the attributes still unset. *)
Definition persisted (pk : Z) (now : datetime) (obj : User) : User :=
  {| id := Some pk;
     username := username obj;
     email := email obj;
     first_name := first_name obj;
     middle_name := middle_name obj;
     last_name := last_name obj;
     password := password obj;
     gender := gender obj;
     birthdate := birthdate obj;
     phone_number := phone_number obj;
     city := city obj;
     country := country obj;
     is_active := Some (default true (is_active obj));
     is_superuser := Some (default false (is_superuser obj));
     created_at := Some (default now (created_at obj));
     updated_at := updated_at obj |}.

(** [isinstance(obj, User)]: every value of the record is an instance of the
    class. *)
Definition isinstance (obj : User) : bool := true.

(** [user_create.id] read as a Python value *)
Definition id_value (obj : User) : PyVal :=
  match id obj with
  | Some pk => VInt pk
  | None => VNone
  end.

End Models.

(** ** The world the coroutines run in *)

Inductive Column : Type := username_column | email_column.

(** [select(model).where(model.<column> == value)] *)
Inductive Select : Type :=
| select_where (column : Column) (value : PyVal).

(** The calls made on the session, in the order they happen. *)
Inductive Call : Type :=
| CallGet (key : PyVal)
| CallScalars (stmt : Select)
| CallAdd (obj : Models.User)
| CallCommit
| CallClose.

Inductive Level : Type := INFO | ERROR.

(** A [logging] record: level, message and the arguments left to format. *)
Record LogRecord : Type := {
  level : Level;
  msg : string;
  args : list PyVal
}.

(** - [table]: the committed rows of "users", keyed by primary key;
    - [sequence]: the next value of the serial behind [id];
    - [new]: the pending instances of the session ([session.add] before the
      flush);
    - [faults]: what the database does to the coming round trips of the
      driver, one entry each: [Some msg] makes the round trip fail with a
      [DBAPIError], [None] lets it through (as does an exhausted script);
    - [calls]: the session calls made so far;
    - [log]: the records emitted so far;
    - [import_time]: the [datetime.now()] evaluated when [app/models/user.py]
      was imported, the column default of [created_at];
    - [entropy]: the state of the salt generator of the hasher. *)
Record World : Type := {
  table : gmap Z Models.User;
  sequence : Z;
  new : list Models.User;
  faults : list (option string);
  calls : list Call;
  log : list LogRecord;
  import_time : datetime;
  entropy : nat
}.

Definition with_storage (tbl : gmap Z Models.User) (seq : Z)
  (pending : list Models.User) (w : World) : World :=
  {| table := tbl; sequence := seq; new := pending;
     faults := faults w; calls := calls w; log := log w;
     import_time := import_time w; entropy := entropy w |}.

Definition with_faults (script : list (option string)) (w : World) : World :=
  {| table := table w; sequence := sequence w; new := new w;
     faults := script; calls := calls w; log := log w;
     import_time := import_time w; entropy := entropy w |}.

Definition with_call (c : Call) (w : World) : World :=
  {| table := table w; sequence := sequence w; new := new w;
     faults := faults w; calls := calls w ++ [c]; log := log w;
     import_time := import_time w; entropy := entropy w |}.

Definition with_record (r : LogRecord) (w : World) : World :=
  {| table := table w; sequence := sequence w; new := new w;
     faults := faults w; calls := calls w; log := log w ++ [r];
     import_time := import_time w; entropy := entropy w |}.

Definition with_entropy (n : nat) (w : World) : World :=
  {| table := table w; sequence := sequence w; new := new w;
     faults := faults w; calls := calls w; log := log w;
     import_time := import_time w; entropy := n |}.

(** ** Coroutines: state and exceptions *)

Definition M (A : Type) : Type := World -> result A * World.

Definition ret {A} (a : A) : M A := fun w => (Ok a, w).

Definition raise {A} (e : Exc) : M A := fun w => (Raise e, w).

Definition bind {A B} (m : M A) (k : A -> M B) : M B :=
  fun w =>
    match m w with
    | (Ok a, w') => k a w'
    | (Raise e, w') => (Raise e, w')
    end.

Notation "'let*' x ':=' m 'in' k" := (bind m (fun x => k))
  (at level 10, x name, m at level 100, k at level 200).
Notation "m ';;;' k" := (bind m (fun _ => k))
  (at level 100, k at level 200, right associativity).

(** [try: body except SQLAlchemyError as exc: handler(exc)]: only members of
    the SQLAlchemy family are caught; anything else passes through. *)
Definition try_except_SQLAlchemyError {A} (body : M A)
  (handler : SQLAlchemyError -> M A) : M A :=
  fun w =>
    match body w with
    | (Raise (SAError exc), w') => handler exc w'
    | outcome => outcome
    end.

(** [logger.info(msg, *args)] and [logger.error(msg)] *)
Definition logger_info (message : string) (arguments : list PyVal) : M unit :=
  fun w =>
    (Ok tt,
     with_record {| level := INFO; msg := message; args := arguments |} w).

Definition logger_error (message : string) : M unit :=
  fun w =>
    (Ok tt, with_record {| level := ERROR; msg := message; args := [] |} w).

(** Modelled from the spec: [app/core/decorators.py] ([with_logging],
    [benchmark]) is not among the sources.  The spec gives the decorated
    coroutines no behaviour beyond their bodies, so the two decorators hand
    the result and the exceptions of the coroutine through unchanged. *)
Definition with_logging {A} (coroutine : M A) : M A := coroutine.
Definition benchmark {A} (coroutine : M A) : M A := coroutine.

(** ** The persistence session

    The session is SQLAlchemy's [AsyncSession], a collaborator outside the
    repository.  It is modelled on the contract the sources rely on: a key
    fetch, a predicate query read with [one], [add] and [commit], and the
    release at the end of every [async with].  The round trips to the
    database ([get], [scalars], [commit]) are where it can fail; entering
    and releasing the session cannot. *)

Module Session.

Definition record (c : Call) : M unit := fun w => (Ok tt, with_call c w).

(** One round trip of the driver: it consumes the head of the fault script
    and fails if that says so. *)
Definition round_trip : M unit :=
  fun w =>
    match faults w with
    | Some message :: script =>
        (Raise (SAError (DBAPIError message)), with_faults script w)
    | None :: script => (Ok tt, with_faults script w)
    | [] => (Ok tt, w)
    end.

(** The row of a table whose primary key is [key], or [None].  A key that
    is no integer equals no primary key. *)
Definition fetched (key : PyVal) (tbl : gmap Z Models.User)
  : option Models.User :=
  match key with
  | VInt pk => tbl !! pk
  | _ => None
  end.

(** [await session.get(model, key)] *)
Definition get (key : PyVal) : M (option Models.User) :=
  record (CallGet key) ;;;
  round_trip ;;;
  fun w => (Ok (fetched key (table w)), w).

(** Whether a row satisfies the [where] clause of a statement. *)
Definition matches (stmt : Select) (row : Models.User) : bool :=
  match stmt with
  | select_where username_column value =>
      bool_decide (VStr (Models.username row) = value)
  | select_where email_column value =>
      bool_decide (VStr (Models.email row) = value)
  end.

(** The rows a statement selects from a table. *)
Definition select_rows (stmt : Select) (tbl : gmap Z Models.User)
  : list Models.User :=
  List.filter (matches stmt) (map_to_list tbl).*2.

(** [await session.scalars(stmt)] *)
Definition scalars (stmt : Select) : M (list Models.User) :=
  record (CallScalars stmt) ;;;
  round_trip ;;;
  fun w => (Ok (select_rows stmt (table w)), w).

(** [ScalarResult.one()]: exactly one row, or an error. *)
Definition one (rows : list Models.User) : M Models.User :=
  match rows with
  | [row] => ret row
  | [] => raise (SAError NoResultFound)
  | _ :: _ :: _ => raise (SAError MultipleResultsFound)
  end.

(** [session.add(obj)]: [obj] becomes pending; nothing is sent yet. *)
Definition add (obj : Models.User) : M unit :=
  record (CallAdd obj) ;;;
  fun w =>
    (Ok tt, with_storage (table w) (sequence w) (new w ++ [obj]) w).

(** The [unique=True] columns of the model: [id], [username], [email]. *)
Definition unique_violation (tbl : gmap Z Models.User) (pk : Z)
  (obj : Models.User) : bool :=
  bool_decide (is_Some (tbl !! pk))
  || existsb
       (fun row =>
          bool_decide (Models.username row = Models.username obj)
          || bool_decide (Models.email row = Models.email obj))
       (map_to_list tbl).*2.

(** The flush of the pending instances, in the order they were added: each
    one without a key draws the next value of the sequence and is inserted
    with the column defaults filled in, unless a unique column rejects it.
    Returns the refreshed instances and the new table, or [None] on a
    rejection, and in both cases the sequence reached. *)
Fixpoint flush (now : datetime) (pending : list Models.User)
  (tbl : gmap Z Models.User) (seq : Z)
  : option (list Models.User * gmap Z Models.User) * Z :=
  match pending with
  | [] => (Some ([], tbl), seq)
  | obj :: rest =>
      let pk := default seq (Models.id obj) in
      let seq' :=
        match Models.id obj with
        | Some _ => seq
        | None => (seq + 1)%Z
        end in
      if unique_violation tbl pk obj then (None, seq')
      else
        let row := Models.persisted pk now obj in
        match flush now rest (<[pk := row]> tbl) seq' with
        | (Some (rows, tbl'), seq'') => (Some (row :: rows, tbl'), seq'')
        | (None, seq'') => (None, seq'')
        end
  end.

(** [await session.commit()]: one round trip that flushes the pending
    instances and commits, or fails and rolls back.  Python refreshes the
    flushed instances in place; here the commit returns them, in the order
    they were added, for the caller to read attributes such as [id] from. *)
Definition commit : M (list Models.User) :=
  record CallCommit ;;;
  round_trip ;;;
  fun w =>
    match flush (import_time w) (new w) (table w) (sequence w) with
    | (Some (rows, tbl), seq) => (Ok rows, with_storage tbl seq [] w)
    | (None, seq) =>
        (Raise (SAError (IntegrityError
                  "duplicate key value violates unique constraint")),
         with_storage (table w) seq [] w)
    end.

(** [session.close()]: pending instances are dropped, the connection goes
    back. *)
Definition close : M unit :=
  record CallClose ;;;
  fun w => (Ok tt, with_storage (table w) (sequence w) [] w).

(** [async with session as async_session: body]: entering yields the session
    itself; leaving closes it on every exit path and lets the outcome of the
    body through. *)
Definition async_with {A} (body : M A) : M A :=
  fun w =>
    let (outcome, w') := body w in
    (outcome, snd (close w')).

End Session.

(** ** app/crud/specification.py *)

(** The concrete classes below [Specification]. *)
Inductive SpecificationClass : Type :=
| IdSpecificationClass
| EmailSpecificationClass
| UsernameSpecificationClass.

(** An instance: its runtime class and the one attribute [value]. *)
Record Specification : Type := {
  class : SpecificationClass;
  value : PyVal
}.

(** [Specification.__init__]: [self.value = value] *)
Definition Specification_init (cls : SpecificationClass) (value : PyVal)
  : M Specification :=
  ret {| class := cls; value := value |}.

(** [IdSpecification(obj_id)]: [super().__init__(obj_id)] *)
Definition IdSpecification (obj_id : PyVal) : M Specification :=
  Specification_init IdSpecificationClass obj_id.

(** [EmailSpecification(email)]: [super().__init__(email)] *)
Definition EmailSpecification (email : PyVal) : M Specification :=
  Specification_init EmailSpecificationClass email.

(** [UsernameSpecification(username)]: [super().__init__(username)] *)
Definition UsernameSpecification (username : PyVal) : M Specification :=
  Specification_init UsernameSpecificationClass username.

(** What [PositiveInt] asks of a value. *)
Definition is_positive_int (v : PyVal) : Prop :=
  match v with
  | VInt z => (0 < z)%Z
  | _ => False
  end.

(** ** app/crud/filter.py

    The [model] argument of both filters is the class [User]: it is the one
    the repository passes and the one [table] holds the rows of. *)

Module IndexFilter.

(** [IndexFilter.filter(spec, session, model, field=None)] *)
Definition filter (spec : Specification) (field : option string)
  : M (option Models.User) :=
  with_logging (benchmark (
    let _id := value spec in
    Session.async_with (
      try_except_SQLAlchemyError
        (let* db_obj := Session.get _id in
         logger_info "Retrieving row with id: %s" [_id] ;;;
         ret db_obj)
        (fun sa_exc =>
           logger_error (str sa_exc) ;;;
           ret None)))).

End IndexFilter.

Module UniqueFilter.

(** The statement the [if]/[elif]/[else] on [field] builds. *)
Definition build_stmt (spec : Specification) (field : string) : M Select :=
  if String.eqb field "username" then
    ret (select_where username_column (value spec))
  else if String.eqb field "email" then
    ret (select_where email_column (value spec))
  else
    raise (ValueError "Invalid field specified for filtering").

(** [UniqueFilter.filter(spec, session, model, field)] *)
Definition filter (spec : Specification) (field : string) : M Models.User :=
  with_logging (benchmark (
    let* stmt := build_stmt spec field in
    Session.async_with (
      let* db_obj :=
        try_except_SQLAlchemyError
          (let* rows := Session.scalars stmt in
           let* db_obj := Session.one rows in
           if Models.isinstance db_obj then ret db_obj
           else raise (ValueError "Retrieved object is not a User instance"))
          (fun sa_exc =>
             logger_error (str sa_exc) ;;;
             raise (SAError sa_exc)) in
      logger_info "Retrieving row with filter: %s" [value spec] ;;;
      ret db_obj))).

(** The call that leaves [field] to its default, ["email"]. *)
Definition filter_default (spec : Specification) : M Models.User :=
  filter spec "email".

End UniqueFilter.

(** ** app/core/security/password.py *)

(** The [CryptContext] of passlib: [hash] salts the password with the
    entropy it is given; both operations may reject their input. *)
Record CryptContext : Type := {
  hash : nat -> string -> result string;
  verify : string -> string -> result bool
}.

Module Password.
Section WithCryptContext.

Variable crypt_context : CryptContext.

(** [crypt_context.hash(password)]: one draw from the salt generator. *)
Definition crypt_context_hash (password : string) : M string :=
  fun w =>
    (hash crypt_context (entropy w) password, with_entropy (S (entropy w)) w).

(** [crypt_context.verify(plain_password, hashed_password)] *)
Definition crypt_context_verify (plain_password hashed_password : string)
  : M bool :=
  fun w => (verify crypt_context plain_password hashed_password, w).

(** [get_password_hash(password)] *)
Definition get_password_hash (password : string) : M string :=
  if String.eqb password "" then
    let error := "Password cannot be empty or None" in
    logger_error error ;;;
    raise (ValueError error)
  else crypt_context_hash password.

(** [verify_password(hashed_password, plain_password)] *)
Definition verify_password (hashed_password plain_password : string)
  : M bool :=
  if String.eqb plain_password "" then
    let error := "Plain password cannot be empty or None" in
    logger_error error ;;;
    raise (ValueError error)
  else if String.eqb hashed_password "" then
    let hash_error := "Hashed password cannot be empty or None" in
    logger_error hash_error ;;;
    raise (ValueError hash_error)
  else crypt_context_verify plain_password hashed_password.

End WithCryptContext.
End Password.

(** ** app/crud/user.py *)

Module UserRepository.
Section WithCryptContext.

Variable crypt_context : CryptContext.

(** [UserRepository.read_by_id(_id)] *)
Definition read_by_id (_id : Specification) : M (option Models.User) :=
  Session.async_with (
    let* user :=
      try_except_SQLAlchemyError
        (IndexFilter.filter _id None)
        (fun db_exc =>
           logger_error (str db_exc) ;;;
           raise (DatabaseException (str db_exc))) in
    ret user).

(** The instance [create_user] hands to [session.add]. *)
Definition build_row (user : Schemas.UserCreate) (hashed_password : string)
  : Models.User :=
  let user_in := Schemas.copy_update_password user hashed_password in
  Models.init user_in.

(** The [try] block of [create_user]: add, commit.  The instance added last
    is [user_create]; it is read back from what the commit refreshed. *)
Definition insert (user_create : Models.User) : M Models.User :=
  try_except_SQLAlchemyError
    (Session.add user_create ;;;
     let* refreshed := Session.commit in
     ret (List.last refreshed user_create))
    (fun sa_exc =>
       logger_error (str sa_exc) ;;;
       raise (DatabaseException (str sa_exc))).

(** [UserRepository.create_user(user)] *)
Definition create_user (user : Schemas.UserCreate) : M (option Models.User) :=
  with_logging (benchmark (
    let* hashed_password :=
      Password.get_password_hash crypt_context (Schemas.password user) in
    let user_create := build_row user hashed_password in
    Session.async_with (
      let* user_create := insert user_create in
      let* spec := IdSpecification (Models.id_value user_create) in
      let* created_user := read_by_id spec in
      match created_user with
      | None => raise (DatabaseException "User could not be created.")
      | Some _ => ret created_user
      end))).

End WithCryptContext.
End UserRepository.

(** ** Python strings

    The methods of [str] the sources call, on strings of one-byte
    characters. *)

Module PyStr.

(** [len(s) / 2] rounded up: [math.ceil(len(s) / 2)] *)
Definition ceil_half (n : nat) : nat := Nat.div2 (S n).

(** [c * n] *)
Fixpoint times (c : ascii) (n : nat) : string :=
  match n with
  | O => ""
  | S n' => String c (times c n')
  end.

(** The number of times a character occurs in a string. *)
Fixpoint count (c : ascii) (s : string) : nat :=
  match s with
  | "" => 0
  | String c' s' => (if Ascii.eqb c' c then 1 else 0) + count c s'
  end.

(** [s.split(sep)] for a separator of one character: the pieces between
    the separators, empty pieces included; never the empty list. *)
Fixpoint split (sep : ascii) (s : string) : list string :=
  match s with
  | "" => [""]
  | String c s' =>
      if Ascii.eqb c sep then "" :: split sep s'
      else
        match split sep s' with
        | piece :: pieces => String c piece :: pieces
        | [] => [String c ""]
        end
  end.

(** [sep.join(pieces)] *)
Fixpoint join (sep : string) (pieces : list string) : string :=
  match pieces with
  | [] => ""
  | piece :: rest =>
      match rest with
      | [] => piece
      | _ :: _ => piece ++ sep ++ join sep rest
      end
  end.

(** [s[n:]] *)
Fixpoint drop (n : nat) (s : string) : string :=
  match n, s with
  | O, _ => s
  | S _, "" => ""
  | S n', String _ s' => drop n' s'
  end.

(** [s[-k:]]: the last [k] characters, all of [s] if it is shorter; and all
    of [s] for [k = 0], where the slice is [s[0:]]. *)
Definition last_chars (k : nat) (s : string) : string :=
  match k with
  | O => s
  | S _ => drop (String.length s - k) s
  end.

(** [s.startswith(prefix)] *)
Fixpoint startswith (s prefix : string) {struct prefix} : bool :=
  match prefix with
  | "" => true
  | String a prefix' =>
      match s with
      | "" => false
      | String b s' => Ascii.eqb a b && startswith s' prefix'
      end
  end.

(** [s.removeprefix(prefix)] *)
Definition removeprefix (s prefix : string) : string :=
  if startswith s prefix then drop (String.length prefix) s else s.

(** [s.replace("", new)]: [new] before every character and at the end. *)
Fixpoint interleave (new s : string) : string :=
  match s with
  | "" => new
  | String c s' => new ++ String c (interleave new s')
  end.

(** The scan of [s.replace(old, new)] for a non-empty [old], left to right:
    where [old] starts, [new] is written and the characters of [old] are
    passed over ([skip] counts those still to pass); any other character is
    copied. *)
Fixpoint replace_scan (old new : string) (skip : nat) (s : string) : string :=
  match s with
  | "" => ""
  | String c s' =>
      match skip with
      | S skip' => replace_scan old new skip' s'
      | O =>
          if startswith s old
          then new ++ replace_scan old new (String.length old - 1) s'
          else String c (replace_scan old new 0 s')
      end
  end.

(** [s.replace(old, new)]: every occurrence of [old], found left to right
    without overlap, becomes [new]. *)
Definition replace (s old new : string) : string :=
  match old with
  | "" => interleave new s
  | String _ _ => replace_scan old new 0 s
  end.

End PyStr.

(** ** app/utils/utils.py *)

Module Utils.

(** [hide_email(email)].  The unpacking of [email.split("@")] raises
    [ValueError] unless there are exactly two pieces; [domain_sections[0]]
    always exists, [split] never returning an empty list. *)
Definition hide_email (email : string) : M string :=
  with_logging (
    match PyStr.split "@" email with
    | [email_title; email_domain] =>
        let title_count :=
          Nat.max (PyStr.ceil_half (String.length email_title)) 1 in
        let domain_sections := PyStr.split "." email_domain in
        let domain_first_section := hd "" domain_sections in
        let domain_count :=
          Nat.max (PyStr.ceil_half (String.length domain_first_section)) 1 in
        let replaced_title :=
          PyStr.replace email_title
            (PyStr.last_chars title_count email_title)
            (PyStr.times "*" title_count) in
        let replaced_domain_first :=
          PyStr.replace domain_first_section
            (PyStr.last_chars domain_count domain_first_section)
            (PyStr.times "*" domain_count) in
        let replaced_domain :=
          replaced_domain_first ++ "." ++
          PyStr.join "." (tl domain_sections) in
        let hidden_email := replaced_title ++ "@" ++ replaced_domain in
        ret hidden_email
    | [] | [_] =>
        raise (ValueError "not enough values to unpack (expected 2, got 1)")
    | _ :: _ :: _ :: _ =>
        raise (ValueError "too many values to unpack (expected 2)")
    end).

(** What [hide_email] makes of the local part and of the first label of the
    domain: the last half of the characters, rounded up and at least one,
    is replaced by as many asterisks wherever it occurs. *)
Definition masked (s : string) : string :=
  let n := Nat.max (PyStr.ceil_half (String.length s)) 1 in
  PyStr.replace s (PyStr.last_chars n s) (PyStr.times "*" n).

End Utils.

(** ** app/utils/files_utils/openapi_utils.py and main.py *)

Module OpenAPI.

(** [remove_tag_from_operation_id(tag, operation_id)] *)
Definition remove_tag_from_operation_id (tag operation_id : string)
  : M string :=
  ret (PyStr.removeprefix operation_id (tag ++ "-")).

End OpenAPI.

Module Main.

(** What [custom_generate_unique_id] reads of a FastAPI [APIRoute]. *)
Record APIRoute : Type := {
  name : string;
  tags : list string
}.

(** [custom_generate_unique_id(route)]; [None] stands for the [IndexError]
    of [route.tags[0]] on a route without tags. *)
Definition custom_generate_unique_id (route : APIRoute) : option string :=
  if String.eqb (name route) "welcome_message" then Some ""
  else
    match tags route with
    | tag :: _ => Some (tag ++ "-" ++ name route)
    | [] => None
    end.

End Main.

(** ** app/core/config.py *)

Module Config.

(** The values of a settings dictionary: [None], booleans, integers,
    strings and dictionaries. *)
Inductive Value : Type :=
| CNone
| CBool (b : bool)
| CInt (z : Z)
| CStr (s : string)
| CDict (d : gmap string Value).

(** [bool(value)] *)
Definition truthy (value : Value) : bool :=
  match value with
  | CNone => false
  | CBool b => b
  | CInt z => negb (Z.eqb z 0)
  | CStr s => negb (String.eqb s "")
  | CDict d => negb (bool_decide (d = ∅))
  end.

(** [if values.get(key): contact[name] = values[key]] *)
Definition copy_if_set (values : gmap string Value) (key name : string)
  (contact : gmap string Value) : gmap string Value :=
  match values !! key with
  | Some value => if truthy value then <[name := value]> contact else contact
  | None => contact
  end.

(** [values.get(key)] when it is set to something true, else nothing. *)
Definition set_entry (values : gmap string Value) (key : string)
  : option Value :=
  match values !! key with
  | Some value => if truthy value then Some value else None
  | None => None
  end.

(** The tuple of the comprehension's [k not in (...)]. *)
Definition contact_keys : list string :=
  ["CONTACT_NAME"; "CONTACT_URL"; "CONTACT_EMAIL"].

(** [Settings.assemble_contact(values)] *)
Definition assemble_contact (values : gmap string Value)
  : gmap string Value :=
  let contact := ∅ in
  let contact := copy_if_set values "CONTACT_NAME" "name" contact in
  let contact := copy_if_set values "CONTACT_URL" "url" contact in
  let contact := copy_if_set values "CONTACT_EMAIL" "email" contact in
  let values := <["CONTACT" := CDict contact]> values in
  filter (fun item => negb (bool_decide (In (fst item) contact_keys)) = true)
    values.

End Config.

(** ** app/utils/email_utils/message.py

    The SMTP server is reached through [smtplib], a collaborator outside the
    repository.  Each of its operations either goes through or raises: an
    error of the [smtplib.SMTPException] family, or some other exception
    (an [OSError] of the socket, for one). *)

Module Mail.

Inductive Failure : Type :=
| SMTPException (text : string)
| OtherException (text : string).

Inductive outcome (A : Type) : Type :=
| Done (a : A)
| Raised (failure : Failure).
Arguments Done {A} a.
Arguments Raised {A} failure.

(** The settings the module reads. *)
Record Settings : Type := {
  SMTP_TLS : bool;
  SMTP_PORT : Z;
  SMTP_HOST : string;
  SMTP_USER : string;
  SMTP_PASSWORD : string;
  MAIL_TIMEOUT : Z;
  EMAILS_FROM_EMAIL : option string;
  EMAILS_FROM_NAME : option string
}.

(** A [MIMEText] message: its payload, its subtype and the two headers the
    module sets. *)
Record MIMEText : Type := {
  payload : string;
  subtype : string;
  Subject : string;
  From : string
}.

(** The operations on the SMTP connection, in the order they happen.  The
    message of [sendmail] is kept as it is, not in its serialized form. *)
Inductive SmtpCall : Type :=
| Connect (host : string) (port timeout : Z)
| StartTLS
| Login (user password : string)
| SendMail (from_addr : string) (to_addrs : list string) (message : MIMEText)
| Quit.

(** - [script]: what the server does to the coming operations, one entry
      each: [Some failure] makes the operation raise, [None] lets it
      through (as does an exhausted script);
    - [sent]: the operations made so far;
    - [journal]: the records logged so far. *)
Record Server : Type := {
  script : list (option Failure);
  sent : list SmtpCall;
  journal : list LogRecord
}.

Definition M (A : Type) : Type := Server -> outcome A * Server.

Definition ret {A} (a : A) : M A := fun s => (Done a, s).

Definition bind {A B} (m : M A) (k : A -> M B) : M B :=
  fun s =>
    match m s with
    | (Done a, s') => k a s'
    | (Raised failure, s') => (Raised failure, s')
    end.

(** [try: body except smtplib.SMTPException as exc: handler(exc)] *)
Definition try_except_SMTPException {A} (body : M A)
  (handler : string -> M A) : M A :=
  fun s =>
    match body s with
    | (Raised (SMTPException exc), s') => handler exc s'
    | result => result
    end.

Definition logger (lvl : Level) (message : string) (arguments : list PyVal)
  : M unit :=
  fun s =>
    (Done tt,
     {| script := script s; sent := sent s;
        journal :=
          journal s ++
          [{| level := lvl; msg := message; args := arguments |}] |}).

(** One operation of the connection. *)
Definition smtp (call : SmtpCall) : M unit :=
  fun s =>
    let s' := {| script := tl (script s); sent := sent s ++ [call];
                 journal := journal s |} in
    match script s with
    | Some failure :: _ => (Raised failure, s')
    | _ => (Done tt, s')
    end.

(** [with smtplib.SMTP(host, port, timeout=timeout) as smtp_conn: body]:
    the constructor connects; once connected, leaving the block sends QUIT
    on every exit path, and an error of the QUIT takes the place of the
    outcome of the body. *)
Definition with_SMTP {A} (host : string) (port timeout : Z) (body : M A)
  : M A :=
  fun s =>
    match smtp (Connect host port timeout) s with
    | (Raised failure, s1) => (Raised failure, s1)
    | (Done _, s1) =>
        let (result, s2) := body s1 in
        match smtp Quit s2 with
        | (Raised failure, s3) => (Raised failure, s3)
        | (Done _, s3) => (result, s3)
        end
    end.

(** [str(value)] of an optional setting *)
Definition str_optional (value : option string) : string :=
  match value with
  | Some text => text
  | None => "None"
  end.

Definition optional_value (value : option string) : PyVal :=
  match value with
  | Some text => VStr text
  | None => VNone
  end.

(** The line feed of the two error messages. *)
Definition newline : string := String "010"%char "".

(** [create_message(html, subject, settings)] *)
Definition create_message (html subject : string) (settings : Settings)
  : M MIMEText :=
  let message :=
    {| payload := html; subtype := "html"; Subject := subject;
       From := str_optional (EMAILS_FROM_NAME settings) ++ " <" ++
               str_optional (EMAILS_FROM_EMAIL settings) ++ ">" |} in
  bind (logger INFO "Message created from: %s"
          [optional_value (EMAILS_FROM_EMAIL settings)])
    (fun _ => ret message).

(** [login_to_smtp(smtp_conn, setting)] *)
Definition login_to_smtp (setting : Settings) : M bool :=
  try_except_SMTPException
    (bind
       (if negb (String.eqb (SMTP_USER setting) "")
           && negb (String.eqb (SMTP_PASSWORD setting) "")
        then smtp (Login (SMTP_USER setting) (SMTP_PASSWORD setting))
        else ret tt)
       (fun _ => ret true))
    (fun exc =>
       bind (logger ERROR ("SMTP login error." ++ newline ++ "%s") [VStr exc])
         (fun _ => ret false)).

(** What [send_message] returns: [Union[bool, str]]. *)
Inductive BoolOrStr : Type :=
| RBool (b : bool)
| RStr (text : string).

(** [bool(value)] *)
Definition truthy (value : BoolOrStr) : bool :=
  match value with
  | RBool b => b
  | RStr text => negb (String.eqb text "")
  end.

(** The dictionary [smtp_options] of [send_message]. *)
Record SmtpOptions : Type := {
  host : string;
  port : Z;
  starttls : option bool;
  user : option string;
  password : option string
}.

Definition smtp_options (settings : Settings) : SmtpOptions :=
  {| host := SMTP_HOST settings;
     port := SMTP_PORT settings;
     starttls := if SMTP_TLS settings then Some true else None;
     user :=
       if String.eqb (SMTP_USER settings) "" then None
       else Some (SMTP_USER settings);
     password :=
       if String.eqb (SMTP_PASSWORD settings) "" then None
       else Some (SMTP_PASSWORD settings) |}.

(** [send_message(email_to, message, settings)]; its two decorators hand
    the outcome through. *)
Definition send_message (email_to : string) (message : MIMEText)
  (settings : Settings) : M BoolOrStr :=
  let options := smtp_options settings in
  try_except_SMTPException
    (bind
       (with_SMTP (host options) (port options) (MAIL_TIMEOUT settings)
          (bind
             (if default false (starttls options) then smtp StartTLS
              else ret tt)
             (fun _ =>
                bind (login_to_smtp settings)
                  (fun _ =>
                     smtp (SendMail
                             (str_optional (EMAILS_FROM_EMAIL settings))
                             [email_to] message)))))
       (fun _ =>
          bind (logger INFO "sent email to %s" [VStr email_to])
            (fun _ => ret (RBool true))))
    (fun exc =>
       let error_msg :=
         "error sending email to " ++ email_to ++ "." ++ newline ++ exc in
       bind (logger ERROR error_msg []) (fun _ => ret (RStr error_msg))).

End Mail.

(** ** Invariants of storage *)

(** Every row is stored under its own [id]. *)
Definition well_keyed (tbl : gmap Z Models.User) : Prop :=
  forall (pk : Z) (row : Models.User),
    tbl !! pk = Some row -> Models.id row = Some pk.

(** No two rows share a username, and no two rows share an email: the
    [unique=True] of the two columns. *)
Definition unique_columns (tbl : gmap Z Models.User) : Prop :=
  forall (pk pk' : Z) (row row' : Models.User),
    tbl !! pk = Some row ->
    tbl !! pk' = Some row' ->
    Models.username row = Models.username row' \/
    Models.email row = Models.email row' ->
    pk = pk'.

(** Whether the database lets the next round trip through. *)
Definition healthy (w : World) : Prop :=
  forall message, head (faults w) <> Some (Some message).

(** ** Concrete inputs used by the examples *)

(** A world with empty storage, a healthy database and nothing logged. *)
Definition empty_world : World :=
  {| table := ∅; sequence := 1%Z; new := []; faults := []; calls := [];
     log := []; import_time := 0%Z; entropy := 0 |}.

(** The create input of the scenario: city and country are the defaults of
    the schema. *)
Definition alice : Schemas.UserCreate :=
  {| Schemas.username := "alice01";
     Schemas.email := "alice@example.com";
     Schemas.first_name := "Alice";
     Schemas.last_name := "Doe";
     Schemas.middle_name := None;
     Schemas.gender := None;
     Schemas.birthdate := None;
     Schemas.phone_number := None;
     Schemas.city := Some "Guayaquil";
     Schemas.country := Some "Ecuador";
     Schemas.password := "Valid$Pass1";
     Schemas.is_superuser := None |}.

(** The same input with an empty password. *)
Definition alice_no_password : Schemas.UserCreate :=
  Schemas.copy_update_password alice "".

(** A committed row with the given key, username and email. *)
Definition stored (pk : Z) (username email : string) : Models.User :=
  {| Models.id := Some pk;
     Models.username := username;
     Models.email := email;
     Models.first_name := "Alice";
     Models.middle_name := None;
     Models.last_name := "Doe";
     Models.password :=
       "$2b$12$abcdefghijklmnopqrstuuABCDEFGHIJKLMNOPQRSTUVWXYZ01234";
     Models.gender := None;
     Models.birthdate := None;
     Models.phone_number := None;
     Models.city := None;
     Models.country := None;
     Models.is_active := Some true;
     Models.is_superuser := Some false;
     Models.created_at := Some 0%Z;
     Models.updated_at := None |}.

(** Storage in which two rows share an email, as after an insert that went
    around the repository. *)
Definition duplicated_world : World :=
  with_storage
    (<[1%Z := stored 1 "alice01" "alice@example.com"]>
       (<[2%Z := stored 2 "alice02" "alice@example.com"]> ∅))
    3%Z [] empty_world.

(** Storage with a single row. *)
Definition single_world : World :=
  with_storage (<[1%Z := stored 1 "alice01" "alice@example.com"]> ∅)
    2%Z [] empty_world.

Fixpoint padding (n : nat) : string :=
  match n with
  | O => ""
  | S n' => String "."%char (padding n')
  end.

(** A stand-in for bcrypt with the same shape of output: sixty characters,
    the scheme prefix first.  It keeps the password readable, which is all
    the examples need. *)
Definition padded (password : string) : string :=
  "$2b$" ++ password ++ padding (56 - String.length password).

Definition padding_context : CryptContext :=
  {| hash := fun _ password =>
       if (String.length password <=? 56)%nat then Ok (padded password)
       else Raise (ValueError "password too long");
     verify := fun plain_password hashed_password =>
       Ok (String.eqb hashed_password (padded plain_password)) |}.

(** A second create input, with a username and an email of its own. *)
Definition bob : Schemas.UserCreate :=
  {| Schemas.username := "bob0001";
     Schemas.email := "bob@example.com";
     Schemas.first_name := "Bob";
     Schemas.last_name := "Roe";
     Schemas.middle_name := None;
     Schemas.gender := Some MALE;
     Schemas.birthdate := Some (2004, 1, 1)%Z;
     Schemas.phone_number := None;
     Schemas.city := Some "Austin";
     Schemas.country := Some "United States";
     Schemas.password := "Hk7pH9*35Fu&3U";
     Schemas.is_superuser := Some true |}.

(** Raw settings with a contact name, an empty contact URL and no contact
    email. *)
Definition contact_settings : gmap string Config.Value :=
  <["CONTACT_NAME" := Config.CStr "Ada"]>
    (<["CONTACT_URL" := Config.CStr ""]>
       (<["PROJECT_NAME" := Config.CStr "telegram-bot"]> ∅)).

(** Settings of a mail server with credentials and without TLS, a message,
    and a server that refuses the login and accepts everything else. *)
Definition mail_settings : Mail.Settings :=
  {| Mail.SMTP_TLS := false;
     Mail.SMTP_PORT := 587;
     Mail.SMTP_HOST := "smtp.example.com";
     Mail.SMTP_USER := "mailer";
     Mail.SMTP_PASSWORD := "secret";
     Mail.MAIL_TIMEOUT := 10;
     Mail.EMAILS_FROM_EMAIL := Some "noreply@example.com";
     Mail.EMAILS_FROM_NAME := Some "telegram-bot" |}.

Definition test_message : Mail.MIMEText :=
  {| Mail.payload := "<p>Hello</p>";
     Mail.subtype := "html";
     Mail.Subject := "telegram-bot - Test email";
     Mail.From := "telegram-bot <noreply@example.com>" |}.

Definition refusing_server : Mail.Server :=
  {| Mail.script :=
       [None; Some (Mail.SMTPException "authentication failed"); None; None];
     Mail.sent := [];
     Mail.journal := [] |}.

(** A database that lets one round trip through and fails the next: the
    commit of [create_user] succeeds, the fetch of its re-read does not. *)
Definition flaky_world : World :=
  with_faults [None; Some "connection lost"] empty_world.

(** The specification [create_user] re-reads the stored instance with. *)
Definition reread (user_create : Models.User) : Specification :=
  {| class := IdSpecificationClass; value := Models.id_value user_create |}.

(** The name of a column, as the [field] argument spells it. *)
Definition column_name (column : Column) : string :=
  match column with
  | username_column => "username"
  | email_column => "email"
  end.

(** * Properties *)

(** ** Stepping through a coroutine *)

Ltac unfold_coroutine :=
  unfold with_logging, benchmark, Session.async_with,
    try_except_SQLAlchemyError, Session.get, Session.scalars, Session.add,
    Session.close, Session.record, Session.round_trip, logger_info,
    logger_error in *;
  unfold bind, ret, raise in *.

Ltac case_fault w :=
  destruct (faults w) as [|[?|] ?] eqn:?.

Lemma bind_Ok {A B} (m : M A) (k : A -> M B) (w w' : World) (a : A) :
  m w = (Ok a, w') -> bind m k w = k a w'.
Proof. intros E. unfold bind. now rewrite E. Qed.

Lemma bind_Raise {A B} (m : M A) (k : A -> M B) (w w' : World) (e : Exc) :
  m w = (Raise e, w') -> bind m k w = (Raise e, w').
Proof. intros E. unfold bind. now rewrite E. Qed.

Lemma async_with_outcome {A} (body : M A) (w : World) :
  fst (Session.async_with body w) = fst (body w).
Proof. unfold Session.async_with. now destruct (body w). Qed.

(** ** IndexFilter *)

(** [IndexFilter.filter] never raises: it returns the fetched row, or [None]
    when the round trip fails. *)
Lemma IndexFilter_filter_outcome (spec : Specification)
  (field : option string) (w : World) :
  fst (IndexFilter.filter spec field w) =
  match faults w with
  | Some _ :: _ => Ok None
  | _ => Ok (Session.fetched (value spec) (table w))
  end.
Proof.
  unfold IndexFilter.filter. unfold_coroutine. simpl.
  case_fault w; reflexivity.
Qed.

(** It makes one fetch and closes the session, and leaves storage alone. *)
Lemma IndexFilter_filter_effect (spec : Specification)
  (field : option string) (w : World) :
  let w' := snd (IndexFilter.filter spec field w) in
  calls w' = (calls w ++ [CallGet (value spec); CallClose])%list /\
  table w' = table w /\ sequence w' = sequence w /\ new w' = [] /\
  faults w' = tail (faults w).
Proof.
  unfold IndexFilter.filter. unfold_coroutine. simpl.
  case_fault w; simpl; rewrite <- ?app_assoc; auto.
Qed.

(** ** read_by_id *)

Lemma read_by_id_outcome (spec : Specification) (w : World) :
  fst (UserRepository.read_by_id spec w) = fst (IndexFilter.filter spec None w).
Proof.
  pose proof (IndexFilter_filter_outcome spec None w) as H.
  unfold UserRepository.read_by_id.
  rewrite async_with_outcome.
  unfold try_except_SQLAlchemyError, bind, ret.
  destruct (IndexFilter.filter spec None w) as [[user|e] w'] eqn:E;
    simpl in *; [reflexivity|].
  case_fault w; discriminate.
Qed.

Lemma read_by_id_effect (spec : Specification) (w : World) :
  let w' := snd (UserRepository.read_by_id spec w) in
  calls w' = (calls w ++ [CallGet (value spec); CallClose; CallClose])%list /\
  table w' = table w /\ sequence w' = sequence w /\ new w' = [] /\
  faults w' = tail (faults w).
Proof.
  unfold UserRepository.read_by_id, IndexFilter.filter. unfold_coroutine.
  simpl. case_fault w; simpl; rewrite <- ?app_assoc; auto.
Qed.

(** The handler of [read_by_id] is never entered: whatever the database
    does, [read_by_id] returns. *)
Lemma read_by_id_returns (spec : Specification) (w : World) :
  exists user, fst (UserRepository.read_by_id spec w) = Ok user.
Proof.
  rewrite read_by_id_outcome, IndexFilter_filter_outcome.
  case_fault w; eauto.
Qed.

(** C1 (the code does otherwise). The claim: every persistence failure during
    the lookup of [read_by_id] reaches the caller as a [DatabaseException].
    What the code does: when the round trip of the key fetch fails,
    [IndexFilter.filter] catches the error, logs it and returns [None]; the
    [except] clause of [read_by_id] is not entered, and [read_by_id] returns
    [None] as well, with only the log telling the failure from an absent
    row. *)
Theorem read_by_id_swallows_lookup_failure (spec : Specification)
  (message : string) (script : list (option string)) (w : World) :
  let failing := with_faults (Some message :: script) w in
  fst (Session.get (value spec) failing) = Raise (SAError (DBAPIError message))
  /\ fst (IndexFilter.filter spec None failing) = Ok None
  /\ fst (UserRepository.read_by_id spec failing) = Ok None
  /\ log (snd (UserRepository.read_by_id spec failing)) =
     (log w ++ [{| level := ERROR; msg := message; args := [] |}])%list.
Proof.
  cbv zeta. split; [reflexivity|].
  split; [rewrite IndexFilter_filter_outcome; reflexivity|].
  split; [rewrite read_by_id_outcome, IndexFilter_filter_outcome;
          reflexivity|].
  reflexivity.
Qed.

(** C3. For every positive id that storage does not hold,
    [read_by_id(IdSpecification(id))] returns [None] and raises nothing,
    whatever the database does to the round trip. *)
Theorem read_by_id_absent (pk : Z) (w : World) :
  (0 < pk)%Z ->
  table w !! pk = None ->
  fst ((let* spec := IdSpecification (VInt pk) in
        UserRepository.read_by_id spec) w) = Ok None.
Proof.
  intros _ Habsent.
  unfold IdSpecification, Specification_init.
  erewrite bind_Ok by reflexivity.
  rewrite read_by_id_outcome, IndexFilter_filter_outcome. simpl.
  rewrite Habsent. case_fault w; reflexivity.
Qed.

Lemma read_by_id_absent_witness :
  (0 < 999999)%Z /\
  table empty_world !! 999999%Z = None /\
  fst ((let* spec := IdSpecification (VInt 999999) in
        UserRepository.read_by_id spec) empty_world) = Ok None.
Proof.
  split; [lia|]. split; [reflexivity|].
  apply (read_by_id_absent 999999 empty_world); [lia | reflexivity].
Defined.

(** C4, as stated, fails: [IdSpecification(-5)] is constructed without any
    error, holds [-5], and [IndexFilter.filter] fetches with that key. *)
Lemma IdSpecification_accepts_nonpositive :
  ~ is_positive_int (VInt (-5)) /\
  (forall e, fst (IdSpecification (VInt (-5)) empty_world) <> Raise e) /\
  fst (IdSpecification (VInt (-5)) empty_world) =
    Ok {| class := IdSpecificationClass; value := VInt (-5) |} /\
  calls (snd ((let* spec := IdSpecification (VInt (-5)) in
               IndexFilter.filter spec None) empty_world)) =
    [CallGet (VInt (-5)); CallClose].
Proof.
  split; [simpl; lia|]. split; [discriminate|]. split; reflexivity.
Qed.

(** C4, amended. The constructor validates nothing: for every value, a
    positive integer or not, [IdSpecification] returns an instance holding
    that value, and [IndexFilter.filter] passes it to the key fetch as it
    is. *)
Theorem IdSpecification_stores_any_value (v : PyVal) (w : World) :
  IdSpecification v w =
    (Ok {| class := IdSpecificationClass; value := v |}, w) /\
  calls (snd ((let* spec := IdSpecification v in
               IndexFilter.filter spec None) w)) =
    (calls w ++ [CallGet v; CallClose])%list.
Proof.
  split; [reflexivity|].
  unfold IdSpecification, Specification_init.
  erewrite bind_Ok by reflexivity.
  apply IndexFilter_filter_effect.
Qed.

(** ** UniqueFilter *)

(** The rows a statement selects are the rows of the table that satisfy its
    [where] clause. *)
Lemma select_rows_spec (stmt : Select) (tbl : gmap Z Models.User)
  (row : Models.User) :
  In row (Session.select_rows stmt tbl) <->
  (exists pk, tbl !! pk = Some row) /\ Session.matches stmt row = true.
Proof.
  unfold Session.select_rows. rewrite filter_In, <- list_elem_of_In.
  rewrite list_elem_of_fmap. split.
  - intros [[[pk row'] [-> Hin]] Hmatch]. split; [|assumption].
    exists pk. now apply elem_of_map_to_list in Hin.
  - intros [[pk Hpk] Hmatch]. split; [|assumption].
    exists (pk, row). split; [reflexivity|]. now apply elem_of_map_to_list.
Qed.

Lemma build_stmt_column (spec : Specification) (column : Column) :
  UniqueFilter.build_stmt spec (column_name column) =
  ret (select_where column (value spec)).
Proof. destruct column; reflexivity. Qed.

(** The outcome of [UniqueFilter.filter] on a valid field: the failure of the
    round trip, or what [one] makes of the selected rows. *)
Lemma UniqueFilter_filter_outcome (spec : Specification) (column : Column)
  (w : World) :
  fst (UniqueFilter.filter spec (column_name column) w) =
  match faults w with
  | Some message :: _ => Raise (SAError (DBAPIError message))
  | _ =>
      match Session.select_rows (select_where column (value spec)) (table w)
      with
      | [row] => Ok row
      | [] => Raise (SAError NoResultFound)
      | _ :: _ :: _ => Raise (SAError MultipleResultsFound)
      end
  end.
Proof.
  unfold UniqueFilter.filter, with_logging, benchmark.
  rewrite build_stmt_column.
  erewrite bind_Ok by reflexivity.
  rewrite async_with_outcome.
  unfold_coroutine. simpl.
  case_fault w; simpl; try reflexivity;
    destruct (Session.select_rows _ _) as [|row [|row' rows]];
    reflexivity.
Qed.

Lemma UniqueFilter_filter_calls (spec : Specification) (column : Column)
  (w : World) :
  calls (snd (UniqueFilter.filter spec (column_name column) w)) =
  (calls w ++
   [CallScalars (select_where column (value spec)); CallClose])%list.
Proof.
  unfold UniqueFilter.filter, with_logging, benchmark.
  rewrite build_stmt_column.
  erewrite bind_Ok by reflexivity.
  unfold_coroutine. simpl.
  case_fault w; simpl; rewrite <- ?app_assoc; try reflexivity;
    destruct (Session.select_rows _ _) as [|row [|row' rows]];
    simpl; rewrite <- ?app_assoc; reflexivity.
Qed.

(** A row [UniqueFilter.filter] returns is the only row selected. *)
Lemma UniqueFilter_filter_returns_match (spec : Specification)
  (column : Column) (w : World) (row : Models.User) :
  fst (UniqueFilter.filter spec (column_name column) w) = Ok row ->
  Session.select_rows (select_where column (value spec)) (table w) = [row].
Proof.
  rewrite UniqueFilter_filter_outcome.
  destruct (Session.select_rows _ _) as [|row0 [|row1 rows]];
    case_fault w; congruence.
Qed.

(** C2. With a valid field selector, [UniqueFilter.filter] raises whenever
    the rows matching [<field> = spec.value] are none or more than one, and
    any row it returns is the one and only match; when exactly one row
    matches and the round trip goes through, it returns that row. *)
Theorem UniqueFilter_filter_exactly_one (spec : Specification)
  (column : Column) (w : World) :
  let matching :=
    Session.select_rows (select_where column (value spec)) (table w) in
  let outcome := fst (UniqueFilter.filter spec (column_name column) w) in
  (length matching <> 1 -> exists e, outcome = Raise e) /\
  (forall row, outcome = Ok row -> matching = [row]) /\
  (forall row,
     matching = [row] ->
     (forall message, head (faults w) <> Some (Some message)) ->
     outcome = Ok row).
Proof.
  cbv zeta.
  split; [|split; [apply UniqueFilter_filter_returns_match|]].
  - rewrite UniqueFilter_filter_outcome.
    destruct (Session.select_rows _ _) as [|row [|row' rows]]; simpl;
      intros Hlength; try contradiction; case_fault w; eauto.
  - rewrite UniqueFilter_filter_outcome.
    intros row -> Hhealthy. case_fault w; try reflexivity.
    exfalso. now apply (Hhealthy s).
Qed.

Lemma UniqueFilter_filter_exactly_one_witness :
  (exists e,
     fst (UniqueFilter.filter
            {| class := EmailSpecificationClass;
               value := VStr "alice@example.com" |}
            "email" duplicated_world) = Raise e) /\
  fst (UniqueFilter.filter
         {| class := EmailSpecificationClass;
            value := VStr "alice@example.com" |}
         "email" single_world) =
    Ok (stored 1 "alice01" "alice@example.com").
Proof.
  split.
  - apply (proj1 (UniqueFilter_filter_exactly_one
                    {| class := EmailSpecificationClass;
                       value := VStr "alice@example.com" |}
                    email_column duplicated_world)).
    vm_compute. discriminate.
  - apply (proj2 (proj2 (UniqueFilter_filter_exactly_one
                    {| class := EmailSpecificationClass;
                       value := VStr "alice@example.com" |}
                    email_column single_world))).
    + vm_compute. reflexivity.
    + intros message. vm_compute. discriminate.
Defined.

(** C8. Whatever the specification and the session, a field other than
    "username" and "email" makes [UniqueFilter.filter] raise [ValueError],
    before the session is touched. *)
Theorem UniqueFilter_filter_invalid_field (spec : Specification)
  (field : string) (w : World) :
  field <> "username" ->
  field <> "email" ->
  UniqueFilter.filter spec field w =
    (Raise (ValueError "Invalid field specified for filtering"), w).
Proof.
  intros Husername Hemail.
  unfold UniqueFilter.filter, with_logging, benchmark,
    UniqueFilter.build_stmt.
  apply String.eqb_neq in Husername, Hemail.
  rewrite Husername, Hemail. reflexivity.
Qed.

Lemma UniqueFilter_filter_invalid_field_witness :
  UniqueFilter.filter
    {| class := UsernameSpecificationClass; value := VStr "alice01" |}
    "id" single_world =
    (Raise (ValueError "Invalid field specified for filtering"),
     single_world).
Proof.
  apply (UniqueFilter_filter_invalid_field
           {| class := UsernameSpecificationClass; value := VStr "alice01" |}
           "id" single_world); discriminate.
Defined.

(** C9. [UniqueFilter.filter] looks at [spec.value] and [field] only: two
    specifications of different classes with the same value behave alike.
    A [UsernameSpecification] passed with field "email", or with the field
    left to its default, runs the query that compares the email column
    with the username, and a row it returns has that value as its email. *)
Theorem UniqueFilter_filter_ignores_class (cls cls' : SpecificationClass)
  (v : PyVal) (field username : string) (w : World) :
  UniqueFilter.filter {| class := cls; value := v |} field w =
  UniqueFilter.filter {| class := cls'; value := v |} field w
  /\
  (let by_email :=
     let* spec := UsernameSpecification (VStr username) in
     UniqueFilter.filter spec "email" in
   let by_default :=
     let* spec := UsernameSpecification (VStr username) in
     UniqueFilter.filter_default spec in
   by_default w = by_email w /\
   calls (snd (by_email w)) =
     (calls w ++
      [CallScalars (select_where email_column (VStr username));
       CallClose])%list /\
   forall row, fst (by_email w) = Ok row -> Models.email row = username).
Proof.
  split; [reflexivity|]. cbv zeta.
  unfold UsernameSpecification, Specification_init,
    UniqueFilter.filter_default.
  erewrite bind_Ok by reflexivity.
  set (spec := {| class := UsernameSpecificationClass;
                  value := VStr username |}).
  split; [reflexivity|]. split.
  - apply (UniqueFilter_filter_calls spec email_column w).
  - intros row Hrow.
    pose proof (UniqueFilter_filter_returns_match
                  spec email_column w row Hrow) as Hsel.
    assert (In row (Session.select_rows
                      (select_where email_column (value spec)) (table w)))
      as Hin by (rewrite Hsel; now left).
    apply select_rows_spec in Hin as [_ Hmatch].
    simpl in Hmatch. apply bool_decide_eq_true in Hmatch.
    now inversion Hmatch.
Qed.

(** ** Hashing *)

Lemma get_password_hash_nonempty (crypt_context : CryptContext)
  (password : string) (w : World) :
  password <> "" ->
  Password.get_password_hash crypt_context password w =
    (hash crypt_context (entropy w) password,
     with_entropy (S (entropy w)) w).
Proof.
  intros Hpassword. unfold Password.get_password_hash.
  apply String.eqb_neq in Hpassword. now rewrite Hpassword.
Qed.

Lemma get_password_hash_empty (crypt_context : CryptContext) (w : World) :
  Password.get_password_hash crypt_context "" w =
    (Raise (ValueError "Password cannot be empty or None"),
     with_record {| level := ERROR;
                    msg := "Password cannot be empty or None";
                    args := [] |} w).
Proof. reflexivity. Qed.

(** Hashing logs and draws entropy; the session is out of its reach. *)
Lemma get_password_hash_session (crypt_context : CryptContext)
  (password : string) (w w1 : World) (outcome : result string) :
  Password.get_password_hash crypt_context password w = (outcome, w1) ->
  table w1 = table w /\ sequence w1 = sequence w /\ new w1 = new w /\
  faults w1 = faults w /\ calls w1 = calls w /\
  import_time w1 = import_time w.
Proof.
  destruct (String.eqb_spec password "") as [->|Hpassword].
  - rewrite get_password_hash_empty. intros [= <- <-]. now simpl.
  - rewrite get_password_hash_nonempty by assumption.
    intros [= <- <-]. now simpl.
Qed.

(** ** The insert of create_user *)

(** The instance added last comes out of the flush last, under the key it
    is stored at. *)
Lemma flush_last (now : datetime) (obj : Models.User) :
  forall (pending : list Models.User) (tbl : gmap Z Models.User) (seq : Z)
         (rows : list Models.User) (tbl' : gmap Z Models.User) (seq' : Z),
    Session.flush now (pending ++ [obj]) tbl seq = (Some (rows, tbl'), seq') ->
    exists rows0 pk,
      rows = (rows0 ++ [Models.persisted pk now obj])%list /\
      tbl' !! pk = Some (Models.persisted pk now obj).
Proof.
  induction pending as [|first pending IH]; intros tbl seq rows tbl' seq';
    simpl.
  - destruct (Session.unique_violation _ _ _); [discriminate|].
    intros [= <- <- _]. exists [], (default seq (Models.id obj)).
    split; [reflexivity|]. apply lookup_insert_eq.
  - destruct (Session.unique_violation _ _ _); [discriminate|].
    destruct (Session.flush now (pending ++ [obj]) _ _)
      as [[[rows1 tbl1]|] seq1] eqn:Hflush; [|discriminate].
    intros [= <- <- _].
    destruct (IH _ _ _ _ _ Hflush) as (rows0 & pk & -> & Hlookup).
    exists (Models.persisted (default seq (Models.id first)) now first
              :: rows0), pk.
    split; [reflexivity | assumption].
Qed.

(** Whatever the outcome, the insert is one [add] and one [commit]. *)
Lemma insert_calls (user_create : Models.User) (w : World) :
  calls (snd (UserRepository.insert user_create w)) =
  (calls w ++ [CallAdd user_create; CallCommit])%list.
Proof.
  unfold UserRepository.insert, Session.commit. unfold_coroutine. simpl.
  case_fault w; simpl; rewrite <- ?app_assoc; try reflexivity;
    destruct (Session.flush _ _ _ _) as [[[rows tbl]|] seq];
    simpl; rewrite <- ?app_assoc; reflexivity.
Qed.

(** A successful insert returns the instance as it was stored. *)
Lemma insert_Ok (user_create stored_user : Models.User) (w w2 : World) :
  UserRepository.insert user_create w = (Ok stored_user, w2) ->
  exists pk,
    stored_user = Models.persisted pk (import_time w) user_create /\
    table w2 !! pk = Some stored_user.
Proof.
  unfold UserRepository.insert, Session.commit. unfold_coroutine. simpl.
  case_fault w; simpl; try discriminate;
    destruct (Session.flush _ _ _ _) as [[[rows tbl]|] seq] eqn:Hflush;
    simpl; try discriminate;
    intros [= <- <-];
    apply flush_last in Hflush as (rows0 & pk & -> & Hlookup);
    rewrite last_last; exists pk; simpl; auto.
Qed.

(** An insert that fails raises the domain error. *)
Lemma insert_Raise (user_create : Models.User) (w w2 : World) (e : Exc) :
  UserRepository.insert user_create w = (Raise e, w2) ->
  exists message, e = DatabaseException message.
Proof.
  unfold UserRepository.insert, Session.commit. unfold_coroutine. simpl.
  case_fault w; simpl;
    try destruct (Session.flush _ _ _ _) as [[[rows tbl]|] seq];
    simpl; intros [= <- <-]; eauto.
Qed.

(** ** create_user *)

Section CreateUser.

Variable crypt_context : CryptContext.

(** If hashing raises, so does [create_user], there and then. *)
Lemma create_user_hash_raises (user : Schemas.UserCreate) (w w1 : World)
  (e : Exc) :
  Password.get_password_hash crypt_context (Schemas.password user) w =
    (Raise e, w1) ->
  UserRepository.create_user crypt_context user w = (Raise e, w1).
Proof.
  intros Hhash. unfold UserRepository.create_user, with_logging, benchmark.
  now apply bind_Raise.
Qed.

(** If the insert fails, [create_user] raises its error and closes. *)
Lemma create_user_insert_raises (user : Schemas.UserCreate)
  (w w1 w2 : World) (hashed_password : string) (e : Exc) :
  Password.get_password_hash crypt_context (Schemas.password user) w =
    (Ok hashed_password, w1) ->
  UserRepository.insert (UserRepository.build_row user hashed_password) w1 =
    (Raise e, w2) ->
  UserRepository.create_user crypt_context user w =
    (Raise e, snd (Session.close w2)).
Proof.
  intros Hhash Hinsert.
  unfold UserRepository.create_user, with_logging, benchmark.
  erewrite bind_Ok by eassumption.
  unfold Session.async_with.
  erewrite bind_Raise by eassumption. reflexivity.
Qed.

(** If the insert succeeds, the outcome is decided by the re-read. *)
Lemma create_user_inserted (user : Schemas.UserCreate) (w w1 w2 : World)
  (hashed_password : string) (user_create : Models.User) :
  Password.get_password_hash crypt_context (Schemas.password user) w =
    (Ok hashed_password, w1) ->
  UserRepository.insert (UserRepository.build_row user hashed_password) w1 =
    (Ok user_create, w2) ->
  UserRepository.create_user crypt_context user w =
    (match fst (UserRepository.read_by_id (reread user_create) w2) with
     | Ok None => Raise (DatabaseException "User could not be created.")
     | Ok (Some created_user) => Ok (Some created_user)
     | Raise e => Raise e
     end,
     snd (Session.close
            (snd (UserRepository.read_by_id (reread user_create) w2)))).
Proof.
  intros Hhash Hinsert.
  unfold UserRepository.create_user, with_logging, benchmark.
  erewrite bind_Ok by eassumption.
  unfold Session.async_with.
  erewrite bind_Ok by eassumption.
  unfold IdSpecification, Specification_init.
  erewrite bind_Ok by reflexivity.
  fold (reread user_create).
  unfold bind at 1.
  destruct (UserRepository.read_by_id (reread user_create) w2)
    as [[[created_user|]|e] w3]; reflexivity.
Qed.

(** [create_user] returns an entity or raises; it has no third outcome. *)
Lemma create_user_not_None (user : Schemas.UserCreate) (w : World) :
  fst (UserRepository.create_user crypt_context user w) <> Ok None.
Proof.
  destruct (Password.get_password_hash crypt_context
              (Schemas.password user) w) as [[hashed_password|e] w1] eqn:Hhash.
  - destruct (UserRepository.insert
                (UserRepository.build_row user hashed_password) w1)
      as [[user_create|e] w2] eqn:Hinsert.
    + rewrite (create_user_inserted _ _ _ _ _ _ Hhash Hinsert). simpl.
      destruct (fst (UserRepository.read_by_id _ w2)) as [[created|]|e];
        discriminate.
    + rewrite (create_user_insert_raises _ _ _ _ _ _ Hhash Hinsert).
      discriminate.
  - rewrite (create_user_hash_raises _ _ _ _ Hhash). discriminate.
Qed.

(** An entity [create_user] returns is the row the insert stored: the row
    built from the input, under the key the flush drew for it. *)
Lemma create_user_returns_stored (user : Schemas.UserCreate) (w w' : World)
  (created_user : Models.User) :
  UserRepository.create_user crypt_context user w =
    (Ok (Some created_user), w') ->
  exists hashed_password w1 pk,
    Password.get_password_hash crypt_context (Schemas.password user) w =
      (Ok hashed_password, w1) /\
    created_user =
      Models.persisted pk (import_time w)
        (UserRepository.build_row user hashed_password) /\
    table w' !! pk = Some created_user.
Proof.
  destruct (Password.get_password_hash crypt_context
              (Schemas.password user) w) as [[hashed_password|e] w1] eqn:Hhash.
  - destruct (UserRepository.insert
                (UserRepository.build_row user hashed_password) w1)
      as [[user_create|e] w2] eqn:Hinsert.
    + rewrite (create_user_inserted _ _ _ _ _ _ Hhash Hinsert).
      destruct (insert_Ok _ _ _ _ Hinsert) as (pk & Hstored & Hlookup).
      destruct (get_password_hash_session _ _ _ _ _ Hhash)
        as (_ & _ & _ & _ & _ & Htime).
      destruct (read_by_id_effect (reread user_create) w2)
        as (_ & Htable & _).
      rewrite read_by_id_outcome, IndexFilter_filter_outcome.
      intros [= Hcreated <-].
      exists hashed_password, w1, pk.
      split; [reflexivity|].
      assert (created_user = user_create) as ->.
      { revert Hcreated. unfold reread. simpl.
        assert (Models.id_value user_create = VInt pk) as ->
          by (rewrite Hstored; reflexivity).
        simpl. rewrite Hlookup.
        case_fault w2; congruence. }
      split; [now rewrite <- Htime|].
      simpl. now rewrite Htable.
    + rewrite (create_user_insert_raises _ _ _ _ _ _ Hhash Hinsert).
      discriminate.
  - rewrite (create_user_hash_raises _ _ _ _ Hhash). discriminate.
Qed.

(** The session calls of [create_user] once the password is hashed: add and
    commit, then either the close after a failed insert, or the fetch of the
    re-read and the three closes of the nested [async with] blocks. *)
Lemma create_user_calls (user : Schemas.UserCreate) (w w1 : World)
  (hashed_password : string) :
  Password.get_password_hash crypt_context (Schemas.password user) w =
    (Ok hashed_password, w1) ->
  let row := UserRepository.build_row user hashed_password in
  calls (snd (UserRepository.create_user crypt_context user w)) =
  (calls w ++ CallAdd row :: CallCommit ::
     match fst (UserRepository.insert row w1) with
     | Ok user_create =>
         [CallGet (Models.id_value user_create);
          CallClose; CallClose; CallClose]
     | Raise _ => [CallClose]
     end)%list.
Proof.
  intros Hhash row.
  destruct (get_password_hash_session _ _ _ _ _ Hhash)
    as (_ & _ & _ & _ & Hcalls & _).
  pose proof (insert_calls row w1) as Hinsert_calls.
  destruct (UserRepository.insert row w1) as [[user_create|e] w2] eqn:Hinsert;
    simpl in Hinsert_calls |- *.
  - rewrite (create_user_inserted _ _ _ _ _ _ Hhash Hinsert). simpl.
    destruct (read_by_id_effect (reread user_create) w2) as (-> & _).
    rewrite Hinsert_calls, Hcalls. simpl.
    now rewrite <- !app_assoc.
  - rewrite (create_user_insert_raises _ _ _ _ _ _ Hhash Hinsert). simpl.
    rewrite Hinsert_calls, Hcalls. now rewrite <- !app_assoc.
Qed.

(** On a healthy database whose unique columns do not reject the row,
    [create_user] returns the row it stored under the next key. *)
Lemma create_user_succeeds (user : Schemas.UserCreate) (w w1 : World)
  (hashed_password : string) :
  Password.get_password_hash crypt_context (Schemas.password user) w =
    (Ok hashed_password, w1) ->
  faults w = [] ->
  new w = [] ->
  Session.unique_violation (table w) (sequence w)
    (UserRepository.build_row user hashed_password) = false ->
  fst (UserRepository.create_user crypt_context user w) =
    Ok (Some (Models.persisted (sequence w) (import_time w)
                (UserRepository.build_row user hashed_password))).
Proof.
  intros Hhash Hfaults Hnew Hunique.
  destruct (get_password_hash_session _ _ _ _ _ Hhash)
    as (Htable & Hsequence & Hnew1 & Hfaults1 & _ & Htime).
  set (row := UserRepository.build_row user hashed_password) in *.
  assert (exists w2,
            UserRepository.insert row w1 =
              (Ok (Models.persisted (sequence w) (import_time w) row), w2) /\
            faults w2 = [] /\
            table w2 =
              <[sequence w :=
                  Models.persisted (sequence w) (import_time w) row]>
                (table w)) as (w2 & Hinsert & Hfaults2 & Htable2).
  { unfold UserRepository.insert, Session.commit. unfold_coroutine. simpl.
    rewrite Hfaults1, Hfaults, Hnew1, Hnew, Htable, Hsequence. simpl.
    rewrite Htime, Hunique. simpl. eexists. split; [reflexivity|].
    simpl. rewrite Hfaults1, Hfaults. split; reflexivity. }
  rewrite (create_user_inserted _ _ _ _ _ _ Hhash Hinsert). simpl.
  rewrite read_by_id_outcome, IndexFilter_filter_outcome, Hfaults2, Htable2.
  simpl. now rewrite lookup_insert_eq.
Qed.

End CreateUser.

(** C5. For a valid create input whose password hashes to [hashed_password],
    the instance [create_user] hands to [session.add] carries the hash as its
    password and every other field of the input as it was supplied; the
    attributes the input does not supply are left unset. *)
Theorem create_user_builds_row (crypt_context : CryptContext)
  (user : Schemas.UserCreate) (w w1 : World) (hashed_password : string) :
  Schemas.valid user ->
  Password.get_password_hash crypt_context (Schemas.password user) w =
    (Ok hashed_password, w1) ->
  exists (row : Models.User) (later : list Call),
    calls (snd (UserRepository.create_user crypt_context user w)) =
      (calls w ++ CallAdd row :: later)%list /\
    Models.password row = hashed_password /\
    Models.username row = Schemas.username user /\
    Models.email row = Schemas.email user /\
    Models.first_name row = Schemas.first_name user /\
    Models.last_name row = Schemas.last_name user /\
    Models.middle_name row = Schemas.middle_name user /\
    Models.gender row = Schemas.gender user /\
    Models.birthdate row = Schemas.birthdate user /\
    Models.phone_number row = Schemas.phone_number user /\
    Models.city row = Schemas.city user /\
    Models.country row = Schemas.country user /\
    Models.is_superuser row = Schemas.is_superuser user /\
    Models.id row = None /\
    Models.is_active row = None /\
    Models.created_at row = None /\
    Models.updated_at row = None.
Proof.
  intros _ Hhash.
  exists (UserRepository.build_row user hashed_password).
  eexists. split.
  - apply (create_user_calls crypt_context user w w1 _ Hhash).
  - repeat (split; [reflexivity|]). reflexivity.
Qed.

Lemma create_user_builds_row_witness :
  exists (row : Models.User) (later : list Call),
    calls (snd (UserRepository.create_user padding_context alice
                  empty_world)) = CallAdd row :: later /\
    Models.password row = padded "Valid$Pass1" /\
    Models.username row = "alice01" /\
    Models.email row = "alice@example.com".
Proof.
  destruct (create_user_builds_row padding_context alice empty_world
              (with_entropy 1 empty_world) (padded "Valid$Pass1"))
    as (row & later & Hcalls & Hpassword & Husername & Hemail & _).
  - unfold Schemas.valid. simpl. lia.
  - reflexivity.
  - exists row, later. auto.
Defined.

(** C6. When the insert of [create_user] has succeeded and the re-read of
    the new row by its key returns [None], [create_user] raises
    [DatabaseException("User could not be created.")] after a single commit
    and a single fetch; and in no case does [create_user] return [None]. *)
Theorem create_user_reread_None (crypt_context : CryptContext)
  (user : Schemas.UserCreate) (w : World) :
  fst (UserRepository.create_user crypt_context user w) <> Ok None /\
  forall (hashed_password : string) (user_create : Models.User)
         (w1 w2 : World),
    Password.get_password_hash crypt_context (Schemas.password user) w =
      (Ok hashed_password, w1) ->
    UserRepository.insert (UserRepository.build_row user hashed_password) w1 =
      (Ok user_create, w2) ->
    fst (UserRepository.read_by_id (reread user_create) w2) = Ok None ->
    fst (UserRepository.create_user crypt_context user w) =
      Raise (DatabaseException "User could not be created.") /\
    calls (snd (UserRepository.create_user crypt_context user w)) =
      (calls w ++
       [CallAdd (UserRepository.build_row user hashed_password); CallCommit;
        CallGet (Models.id_value user_create);
        CallClose; CallClose; CallClose])%list.
Proof.
  split; [apply create_user_not_None|].
  intros hashed_password user_create w1 w2 Hhash Hinsert Hreread. split.
  - rewrite (create_user_inserted _ _ _ _ _ _ _ Hhash Hinsert). simpl.
    now rewrite Hreread.
  - rewrite (create_user_calls _ _ _ _ _ Hhash), Hinsert. reflexivity.
Qed.

Lemma create_user_reread_None_witness :
  fst (UserRepository.create_user padding_context alice flaky_world) =
    Raise (DatabaseException "User could not be created.") /\
  calls (snd (UserRepository.create_user padding_context alice flaky_world)) =
    [CallAdd (UserRepository.build_row alice (padded "Valid$Pass1"));
     CallCommit; CallGet (VInt 1); CallClose; CallClose; CallClose].
Proof.
  apply (proj2 (create_user_reread_None padding_context alice flaky_world)
           (padded "Valid$Pass1")
           (Models.persisted 1%Z 0%Z
              (UserRepository.build_row alice (padded "Valid$Pass1")))
           (with_entropy 1 flaky_world)
           (snd (UserRepository.insert
                   (UserRepository.build_row alice (padded "Valid$Pass1"))
                   (with_entropy 1 flaky_world)))).
  - reflexivity.
  - vm_compute. reflexivity.
  - vm_compute. reflexivity.
Defined.

(** C10. Hashing comes first and does not touch the session: whatever its
    outcome, storage, pending instances, fault script and session calls are
    as before.  If it raises, [create_user] raises the same error at once,
    in that same world: nothing is added and nothing committed.  An empty
    password makes it raise [ValueError]. *)
Theorem create_user_hash_failure (crypt_context : CryptContext)
  (user : Schemas.UserCreate) (w w1 : World) (outcome : result string) :
  Password.get_password_hash crypt_context (Schemas.password user) w =
    (outcome, w1) ->
  (table w1 = table w /\ sequence w1 = sequence w /\ new w1 = new w /\
   faults w1 = faults w /\ calls w1 = calls w) /\
  (forall e,
     outcome = Raise e ->
     UserRepository.create_user crypt_context user w = (Raise e, w1)) /\
  (Schemas.password user = "" ->
   outcome = Raise (ValueError "Password cannot be empty or None")).
Proof.
  intros Hhash. split; [|split].
  - destruct (get_password_hash_session _ _ _ _ _ Hhash)
      as (? & ? & ? & ? & ? & _). auto.
  - intros e ->. now apply create_user_hash_raises.
  - intros Hempty. rewrite Hempty, get_password_hash_empty in Hhash.
    congruence.
Qed.

Lemma create_user_hash_failure_witness :
  fst (UserRepository.create_user padding_context alice_no_password
         single_world) =
    Raise (ValueError "Password cannot be empty or None") /\
  table (snd (UserRepository.create_user padding_context alice_no_password
                single_world)) = table single_world /\
  calls (snd (UserRepository.create_user padding_context alice_no_password
                single_world)) = [].
Proof.
  pose proof (create_user_hash_failure padding_context alice_no_password
                single_world _ _ eq_refl) as (Hsession & Hraise & _).
  rewrite (Hraise _ eq_refl).
  split; [reflexivity|]. split; [apply Hsession | apply Hsession].
Defined.

(** ** The contract of the hasher *)

Lemma string_length_append (s1 s2 : string) :
  String.length (s1 ++ s2) = String.length s1 + String.length s2.
Proof. induction s1 as [|c s1 IH]; simpl; [reflexivity | now rewrite IH]. Qed.

Lemma padding_length (n : nat) : String.length (padding n) = n.
Proof. induction n as [|n IH]; simpl; [reflexivity | now rewrite IH]. Qed.

Lemma padded_length (password : string) :
  String.length password <= 56 -> String.length (padded password) = 60.
Proof.
  intros Hlength. unfold padded.
  rewrite !string_length_append, padding_length. simpl. lia.
Qed.

Lemma padding_context_verifies (salt : nat) (password hashed : string) :
  hash padding_context salt password = Ok hashed ->
  verify padding_context password hashed = Ok true.
Proof.
  simpl. destruct (String.length password <=? 56)%nat; [|discriminate].
  intros [= <-]. now rewrite String.eqb_refl.
Qed.

Lemma padding_context_length (salt : nat) (password hashed : string) :
  hash padding_context salt password = Ok hashed ->
  String.length hashed = 60.
Proof.
  simpl. destruct (Nat.leb_spec (String.length password) 56);
    [|discriminate].
  intros [= <-]. now apply padded_length.
Qed.

Section HashingContract.

Variable crypt_context : CryptContext.

(** What the layer relies on from the bcrypt context: a hash it produced
    verifies against the password it was produced from, and is the sixty
    characters of a bcrypt digest. *)
Hypothesis hash_verifies :
  forall (salt : nat) (password hashed : string),
    hash crypt_context salt password = Ok hashed ->
    verify crypt_context password hashed = Ok true.
Hypothesis hash_length :
  forall (salt : nat) (password hashed : string),
    hash crypt_context salt password = Ok hashed ->
    String.length hashed = 60.

(** C7. For a valid create input, the entity [create_user] returns has a
    password that differs from the plaintext of the input, and
    [verify_password] accepts it against that plaintext. *)
Theorem create_user_password_hashed (user : Schemas.UserCreate)
  (w w' : World) (created_user : Models.User) :
  Schemas.valid user ->
  UserRepository.create_user crypt_context user w =
    (Ok (Some created_user), w') ->
  Models.password created_user <> Schemas.password user /\
  fst (Password.verify_password crypt_context
         (Models.password created_user) (Schemas.password user) w') =
    Ok true.
Proof.
  intros [_ [Hmin Hmax]] Hcreate.
  destruct (create_user_returns_stored _ _ _ _ _ Hcreate)
    as (hashed_password & w1 & pk & Hhash & -> & _).
  assert (Schemas.password user <> "") as Hplain
    by (intros Hempty; rewrite Hempty in Hmin; simpl in Hmin; lia).
  rewrite get_password_hash_nonempty in Hhash by assumption.
  injection Hhash as Hhash _.
  pose proof (hash_length _ _ _ Hhash) as Hlength.
  simpl. split.
  - intros Hsame. rewrite Hsame in Hlength. lia.
  - unfold Password.verify_password, Password.crypt_context_verify.
    apply String.eqb_neq in Hplain. rewrite Hplain.
    assert (hashed_password <> "") as Hhashed
      by (intros Hempty; rewrite Hempty in Hlength; discriminate).
    apply String.eqb_neq in Hhashed. rewrite Hhashed. simpl.
    now apply (hash_verifies (entropy w)).
Qed.

End HashingContract.

Lemma create_user_password_hashed_witness :
  exists created_user,
    fst (UserRepository.create_user padding_context alice empty_world) =
      Ok (Some created_user) /\
    Models.id created_user = Some 1%Z /\
    Models.is_active created_user = Some true /\
    Models.is_superuser created_user = Some false /\
    Models.password created_user <> "Valid$Pass1" /\
    fst (Password.verify_password padding_context
           (Models.password created_user) "Valid$Pass1"
           (snd (UserRepository.create_user padding_context alice
                   empty_world))) = Ok true.
Proof.
  exists (Models.persisted 1%Z 0%Z
            (UserRepository.build_row alice (padded "Valid$Pass1"))).
  split; [reflexivity|]. split; [reflexivity|]. split; [reflexivity|].
  split; [reflexivity|].
  apply (create_user_password_hashed padding_context
           padding_context_verifies padding_context_length
           alice empty_world).
  - unfold Schemas.valid. simpl. lia.
  - vm_compute. reflexivity.
Defined.

(** * Further properties of the layer *)

(** ** Storage under a flush *)

Lemma stored_rows (tbl : gmap Z Models.User) (row : Models.User) :
  In row (map_to_list tbl).*2 <-> exists pk, tbl !! pk = Some row.
Proof.
  rewrite <- list_elem_of_In, list_elem_of_fmap. split.
  - intros [[pk row'] [-> Hin]]. exists pk.
    now apply elem_of_map_to_list in Hin.
  - intros [pk Hpk]. exists (pk, row). split; [reflexivity|].
    now apply elem_of_map_to_list.
Qed.

(** The unique columns accept an instance exactly when its key is free and
    no stored row has its username or its email. *)
Lemma unique_violation_false (tbl : gmap Z Models.User) (pk : Z)
  (obj : Models.User) :
  Session.unique_violation tbl pk obj = false <->
  tbl !! pk = None /\
  forall pk' row,
    tbl !! pk' = Some row ->
    Models.username row <> Models.username obj /\
    Models.email row <> Models.email obj.
Proof.
  unfold Session.unique_violation. rewrite orb_false_iff.
  rewrite bool_decide_eq_false, <- eq_None_not_Some. split.
  - intros [Hfree Hrows]. split; [assumption|]. intros pk' row Hrow.
    assert (In row (map_to_list tbl).*2) as Hin
      by (apply stored_rows; eauto).
    destruct (decide (Models.username row = Models.username obj)) as [E|E].
    + assert (existsb
                (fun row =>
                   bool_decide (Models.username row = Models.username obj)
                   || bool_decide (Models.email row = Models.email obj))
                (map_to_list tbl).*2 = true) as Habs.
      { apply existsb_exists. exists row. split; [assumption|].
        now rewrite (bool_decide_eq_true_2 _ E). }
      congruence.
    + destruct (decide (Models.email row = Models.email obj)) as [E'|E'];
        [|now split].
      assert (existsb
                (fun row =>
                   bool_decide (Models.username row = Models.username obj)
                   || bool_decide (Models.email row = Models.email obj))
                (map_to_list tbl).*2 = true) as Habs.
      { apply existsb_exists. exists row. split; [assumption|].
        rewrite (bool_decide_eq_true_2 _ E'). apply orb_true_r. }
      congruence.
  - intros [Hfree Hrows]. split; [assumption|].
    apply not_true_is_false. intros Hexists.
    apply existsb_exists in Hexists as (row & Hin & Hrow).
    apply stored_rows in Hin as [pk' Hpk'].
    destruct (Hrows pk' row Hpk') as [Husername Hemail].
    apply orb_true_iff in Hrow as [H|H]; apply bool_decide_eq_true in H;
      contradiction.
Qed.

(** What a single accepted insert does to the three invariants. *)
Lemma insert_row_invariants (tbl : gmap Z Models.User) (pk : Z)
  (now : datetime) (obj : Models.User) :
  Session.unique_violation tbl pk obj = false ->
  let tbl' := <[pk := Models.persisted pk now obj]> tbl in
  (forall pk0 row, tbl !! pk0 = Some row -> tbl' !! pk0 = Some row) /\
  (well_keyed tbl -> well_keyed tbl') /\
  (unique_columns tbl -> unique_columns tbl').
Proof.
  intros Haccepted. apply unique_violation_false in Haccepted
    as [Hfree Hrows]. cbv zeta. split; [|split].
  - intros pk0 row Hrow. rewrite lookup_insert_ne; [assumption|].
    intros ->. congruence.
  - intros Hkeyed pk0 row. destruct (decide (pk = pk0)) as [->|Hne].
    + rewrite lookup_insert_eq. now intros [= <-].
    + rewrite lookup_insert_ne by assumption. apply Hkeyed.
  - intros Hunique pk1 pk2 row1 row2.
    destruct (decide (pk = pk1)) as [E1|Hne1];
      destruct (decide (pk = pk2)) as [E2|Hne2]; subst;
      rewrite ?lookup_insert_eq, ?lookup_insert_ne by assumption;
      try (intros; reflexivity).
    + intros [= <-] Hrow2 Hshared. simpl in Hshared.
      destruct (Hrows pk2 row2 Hrow2). destruct Hshared; congruence.
    + intros Hrow1 [= <-] Hshared. simpl in Hshared.
      destruct (Hrows pk1 row1 Hrow1). destruct Hshared; congruence.
    + apply Hunique.
Qed.

(** A flush that goes through keeps every stored row and both invariants. *)
Lemma flush_invariants (now : datetime) :
  forall (pending : list Models.User) (tbl : gmap Z Models.User) (seq : Z)
         (rows : list Models.User) (tbl' : gmap Z Models.User) (seq' : Z),
    Session.flush now pending tbl seq = (Some (rows, tbl'), seq') ->
    (forall pk row, tbl !! pk = Some row -> tbl' !! pk = Some row) /\
    (well_keyed tbl -> well_keyed tbl') /\
    (unique_columns tbl -> unique_columns tbl').
Proof.
  induction pending as [|obj pending IH]; intros tbl seq rows tbl' seq';
    simpl.
  - intros [= _ <- _]. auto.
  - destruct (Session.unique_violation _ _ _) eqn:Haccepted;
      [discriminate|].
    destruct (Session.flush now pending _ _)
      as [[[rows1 tbl1]|] seq1] eqn:Hflush; [|discriminate].
    intros [= _ <- _].
    destruct (insert_row_invariants _ _ now _ Haccepted) as (H1 & H2 & H3).
    destruct (IH _ _ _ _ _ Hflush) as (IH1 & IH2 & IH3).
    split; [|split]; auto.
Qed.

(** A flush is rejected when a stored row already has the username or the
    email of the instance added last. *)
Lemma flush_taken (now : datetime) (obj : Models.User) :
  forall (pending : list Models.User) (tbl : gmap Z Models.User) (seq : Z)
         (pk : Z) (row : Models.User),
    tbl !! pk = Some row ->
    Models.username row = Models.username obj \/
    Models.email row = Models.email obj ->
    fst (Session.flush now (pending ++ [obj]) tbl seq) = None.
Proof.
  induction pending as [|first pending IH]; intros tbl seq pk row Hrow Htaken;
    simpl.
  - destruct (Session.unique_violation _ _ _) eqn:Haccepted;
      [reflexivity|].
    apply unique_violation_false in Haccepted as [_ Hrows].
    destruct (Hrows pk row Hrow). destruct Htaken; contradiction.
  - destruct (Session.unique_violation _ _ _) eqn:Haccepted;
      [reflexivity|].
    destruct (insert_row_invariants _ _ now _ Haccepted) as (Hkept & _).
    specialize (IH _ (match Models.id first with
                      | Some _ => seq
                      | None => (seq + 1)%Z
                      end) pk row (Hkept _ _ Hrow) Htaken).
    destruct (Session.flush now (pending ++ [obj]) _ _)
      as [[[rows1 tbl1]|] seq1]; [discriminate | reflexivity].
Qed.

(** The instance added last is stored under a key that was free. *)
Lemma flush_last_fresh (now : datetime) (obj : Models.User) :
  forall (pending : list Models.User) (tbl : gmap Z Models.User) (seq : Z)
         (rows : list Models.User) (tbl' : gmap Z Models.User) (seq' : Z),
    Session.flush now (pending ++ [obj]) tbl seq = (Some (rows, tbl'), seq') ->
    exists rows0 pk,
      rows = (rows0 ++ [Models.persisted pk now obj])%list /\
      tbl' !! pk = Some (Models.persisted pk now obj) /\
      tbl !! pk = None.
Proof.
  induction pending as [|first pending IH]; intros tbl seq rows tbl' seq';
    simpl.
  - destruct (Session.unique_violation _ _ _) eqn:Haccepted;
      [discriminate|].
    intros [= <- <- _]. exists [], (default seq (Models.id obj)).
    split; [reflexivity|]. split; [apply lookup_insert_eq|].
    now apply unique_violation_false in Haccepted as [Hfree _].
  - destruct (Session.unique_violation _ _ _) eqn:Haccepted;
      [discriminate|].
    destruct (Session.flush now (pending ++ [obj]) _ _)
      as [[[rows1 tbl1]|] seq1] eqn:Hflush; [|discriminate].
    intros [= <- <- _].
    destruct (IH _ _ _ _ _ Hflush) as (rows0 & pk & -> & Hlookup & Hfree).
    exists (Models.persisted (default seq (Models.id first)) now first
              :: rows0), pk.
    split; [reflexivity|]. split; [assumption|].
    destruct (tbl !! pk) as [row|] eqn:Hrow; [|reflexivity].
    destruct (insert_row_invariants _ _ now _ Haccepted) as (Hkept & _).
    rewrite (Hkept _ _ Hrow) in Hfree. discriminate.
Qed.

(** ** verify_password *)

(** X1. [verify_password] rejects an empty argument before the context is
    consulted: an empty plaintext raises [ValueError] with the plaintext
    message (also when the hash is empty as well), an empty hash with a
    non-empty plaintext raises it with the hash message; either way the
    message is logged once and nothing else changes. *)
Theorem verify_password_empty (crypt_context : CryptContext)
  (hashed_password plain_password : string) (w : World) :
  plain_password = "" \/ hashed_password = "" ->
  let error :=
    if String.eqb plain_password ""
    then "Plain password cannot be empty or None"
    else "Hashed password cannot be empty or None" in
  Password.verify_password crypt_context hashed_password plain_password w =
    (Raise (ValueError error),
     with_record {| level := ERROR; msg := error; args := [] |} w).
Proof.
  intros Hempty. unfold Password.verify_password.
  destruct (String.eqb_spec plain_password "") as [->|Hplain];
    [reflexivity|].
  destruct Hempty as [Hempty| ->]; [contradiction | reflexivity].
Qed.

Lemma verify_password_empty_witness :
  fst (Password.verify_password padding_context "" "Valid$Pass1"
         empty_world) =
    Raise (ValueError "Hashed password cannot be empty or None") /\
  fst (Password.verify_password padding_context "" "" empty_world) =
    Raise (ValueError "Plain password cannot be empty or None").
Proof.
  split.
  - rewrite (verify_password_empty padding_context "" "Valid$Pass1"
               empty_world); [reflexivity | now right].
  - rewrite (verify_password_empty padding_context "" "" empty_world);
      [reflexivity | now left].
Defined.

Section HashThenVerify.

Variable crypt_context : CryptContext.

Hypothesis hash_verifies :
  forall (salt : nat) (password hashed : string),
    hash crypt_context salt password = Ok hashed ->
    verify crypt_context password hashed = Ok true.
Hypothesis hash_length :
  forall (salt : nat) (password hashed : string),
    hash crypt_context salt password = Ok hashed ->
    String.length hashed = 60.

(** X2. Hashing and verifying compose: whatever [get_password_hash] returns
    for a password, [verify_password] accepts against that password, in any
    later world and without changing it; and [get_password_hash] returns
    only for a non-empty password. *)
Theorem get_password_hash_verifies (password hashed_password : string)
  (w w1 w2 : World) :
  Password.get_password_hash crypt_context password w =
    (Ok hashed_password, w1) ->
  password <> "" /\
  Password.verify_password crypt_context hashed_password password w2 =
    (Ok true, w2).
Proof.
  intros Hhash.
  assert (password <> "") as Hpassword.
  { intros ->. rewrite get_password_hash_empty in Hhash. discriminate. }
  split; [assumption|].
  rewrite get_password_hash_nonempty in Hhash by assumption.
  injection Hhash as Hhash _.
  pose proof (hash_length _ _ _ Hhash) as Hlength.
  assert (hashed_password <> "") as Hhashed
    by (intros ->; discriminate).
  unfold Password.verify_password, Password.crypt_context_verify.
  apply String.eqb_neq in Hpassword, Hhashed.
  rewrite Hpassword, Hhashed.
  now rewrite (hash_verifies _ _ _ Hhash).
Qed.

End HashThenVerify.

Lemma get_password_hash_verifies_witness :
  Password.verify_password padding_context (padded "Valid$Pass1")
    "Valid$Pass1" single_world = (Ok true, single_world).
Proof.
  apply (get_password_hash_verifies padding_context
           padding_context_verifies padding_context_length
           "Valid$Pass1" (padded "Valid$Pass1")
           empty_world (with_entropy 1 empty_world) single_world).
  reflexivity.
Defined.

(** ** The filters: logging, release, storage *)

(** X3. On a valid field [UniqueFilter.filter] emits exactly one record: on
    success the INFO record naming the value, on failure the ERROR record
    with the text of the error, which is a SQLAlchemy error re-raised as it
    is.  In both cases it leaves the stored rows and the sequence alone and
    ends with the session released. *)
Theorem UniqueFilter_filter_logs_and_releases (spec : Specification)
  (column : Column) (w : World) :
  let outcome := fst (UniqueFilter.filter spec (column_name column) w) in
  let w' := snd (UniqueFilter.filter spec (column_name column) w) in
  match outcome with
  | Ok _ =>
      log w' =
        (log w ++ [{| level := INFO;
                      msg := "Retrieving row with filter: %s";
                      args := [value spec] |}])%list
  | Raise e =>
      exists sa_exc,
        e = SAError sa_exc /\
        log w' =
          (log w ++ [{| level := ERROR; msg := str sa_exc;
                        args := [] |}])%list
  end /\
  table w' = table w /\ sequence w' = sequence w /\ new w' = [] /\
  last (calls w') = Some CallClose.
Proof.
  cbv zeta.
  unfold UniqueFilter.filter, with_logging, benchmark.
  rewrite build_stmt_column.
  erewrite bind_Ok by reflexivity.
  unfold_coroutine. simpl.
  case_fault w; simpl;
    try destruct (Session.select_rows _ _) as [|row [|row' rows]];
    simpl; rewrite ?last_snoc; eauto 10.
Qed.

(** X4. [IndexFilter.filter] emits exactly one record: the ERROR record with
    the text of the failure when the fetch fails, and otherwise the same
    INFO record whether a row was found or not.  Its outcome depends on
    neither the [field] argument nor the class of the specification. *)
Theorem IndexFilter_filter_logs (spec : Specification)
  (field : option string) (w : World) :
  log (snd (IndexFilter.filter spec field w)) =
    (log w ++
     [match faults w with
      | Some message :: _ =>
          {| level := ERROR; msg := message; args := [] |}
      | _ =>
          {| level := INFO; msg := "Retrieving row with id: %s";
             args := [value spec] |}
      end])%list /\
  forall (cls : SpecificationClass) (field' : option string),
    IndexFilter.filter {| class := cls; value := value spec |} field' w =
    IndexFilter.filter spec field w.
Proof.
  split.
  - unfold IndexFilter.filter. unfold_coroutine. simpl.
    case_fault w; reflexivity.
  - reflexivity.
Qed.


Lemma single_world_lookup (pk : Z) (row : Models.User) :
  table single_world !! pk = Some row ->
  pk = 1%Z /\ row = stored 1 "alice01" "alice@example.com".
Proof.
  unfold single_world. simpl. intros Hrow.
  apply lookup_insert_Some in Hrow as [[<- <-]|[_ Hrow]];
    [now split|].
  now rewrite lookup_empty in Hrow.
Qed.

Lemma single_world_well_keyed : well_keyed (table single_world).
Proof.
  intros pk row Hrow. now apply single_world_lookup in Hrow as [-> ->].
Qed.

Lemma single_world_unique_columns : unique_columns (table single_world).
Proof.
  intros pk pk' row row' Hrow Hrow' _.
  apply single_world_lookup in Hrow as [-> _].
  now apply single_world_lookup in Hrow' as [-> _].
Qed.


(** ** create_user and storage *)

(** The two ways the insert can end: an error of the domain with storage as
    it was, or the flush of the pending instances with [user_create] last. *)
Lemma insert_cases (user_create : Models.User) (w : World) :
  let outcome := fst (UserRepository.insert user_create w) in
  let w2 := snd (UserRepository.insert user_create w) in
  (table w2 = table w /\
   exists sa_exc,
     outcome = Raise (DatabaseException (str sa_exc)) /\
     log w2 =
       (log w ++ [{| level := ERROR; msg := str sa_exc; args := [] |}])%list /\
     (sa_exc = IntegrityError
                 "duplicate key value violates unique constraint" \/
      exists message script,
        faults w = Some message :: script /\ sa_exc = DBAPIError message)) \/
  (exists rows tbl' seq',
     Session.flush (import_time w) (new w ++ [user_create]) (table w)
       (sequence w) = (Some (rows, tbl'), seq') /\
     outcome = Ok (List.last rows user_create) /\
     table w2 = tbl' /\ log w2 = log w /\ healthy w).
Proof.
  cbv zeta.
  unfold UserRepository.insert, Session.commit, healthy.
  unfold_coroutine. simpl.
  case_fault w; simpl;
    try (left; split; [reflexivity|]; exists (DBAPIError s);
         split; [reflexivity|]; split; [reflexivity|]; right; eauto; fail);
    destruct (Session.flush _ _ _ _) as [[[rows tbl]|] seq] eqn:Hflush;
    simpl;
    try (right; exists rows, tbl, seq; repeat (split; [reflexivity|]);
         intros message; simpl; congruence);
    left; (split; [reflexivity|]);
    exists (IntegrityError "duplicate key value violates unique constraint");
    (split; [reflexivity|]); (split; [reflexivity|]); now left.
Qed.

(** Where [create_user] leaves storage: as it was, or as the flush of the
    pending instances and the new row left it. *)
Lemma create_user_storage (crypt_context : CryptContext)
  (user : Schemas.UserCreate) (w : World) :
  let w' := snd (UserRepository.create_user crypt_context user w) in
  table w' = table w \/
  exists hashed_password rows tbl' seq',
    Session.flush (import_time w)
      (new w ++ [UserRepository.build_row user hashed_password])
      (table w) (sequence w) = (Some (rows, tbl'), seq') /\
    table w' = tbl'.
Proof.
  cbv zeta.
  destruct (Password.get_password_hash crypt_context
              (Schemas.password user) w) as [[hashed_password|e] w1] eqn:Hhash.
  - destruct (get_password_hash_session _ _ _ _ _ Hhash)
      as (Htable & Hsequence & Hnew & _ & _ & Htime).
    pose proof (insert_cases
                  (UserRepository.build_row user hashed_password) w1)
      as Hcases. cbv zeta in Hcases.
    destruct (UserRepository.insert
                (UserRepository.build_row user hashed_password) w1)
      as [[user_create|e] w2] eqn:Hinsert; simpl in Hcases.
    + rewrite (create_user_inserted _ _ _ _ _ _ _ Hhash Hinsert). simpl.
      destruct (read_by_id_effect (reread user_create) w2)
        as (_ & -> & _).
      destruct Hcases as [(_ & sa_exc & Habs & _)|
                          (rows & tbl' & seq' & Hflush & _ & Htable2 & _)];
        [discriminate|].
      right. exists hashed_password, rows, tbl', seq'.
      rewrite <- Htime, <- Hnew, <- Htable, <- Hsequence. now split.
    + rewrite (create_user_insert_raises _ _ _ _ _ _ _ Hhash Hinsert). simpl.
      destruct Hcases as [(Htable2 & _)|
                          (rows & tbl' & seq' & _ & Habs & _)];
        [|discriminate].
      left. now rewrite Htable2.
  - rewrite (create_user_hash_raises _ _ _ _ _ Hhash). simpl.
    left. now destruct (get_password_hash_session _ _ _ _ _ Hhash).
Qed.

(** X6. [create_user] never deletes and never overwrites: whatever its
    outcome, every row stored before is stored afterwards, unchanged and
    under the same key. *)
Theorem create_user_keeps_rows (crypt_context : CryptContext)
  (user : Schemas.UserCreate) (w : World) (pk : Z) (row : Models.User) :
  table w !! pk = Some row ->
  table (snd (UserRepository.create_user crypt_context user w)) !! pk =
    Some row.
Proof.
  intros Hrow.
  destruct (create_user_storage crypt_context user w)
    as [->|(hashed_password & rows & tbl' & seq' & Hflush & ->)];
    [assumption|].
  now apply (flush_invariants _ _ _ _ _ _ _ Hflush).
Qed.

Lemma create_user_keeps_rows_witness :
  table (snd (UserRepository.create_user padding_context bob single_world))
    !! 1%Z = Some (stored 1 "alice01" "alice@example.com").
Proof.
  apply (create_user_keeps_rows padding_context bob single_world 1%Z
           (stored 1 "alice01" "alice@example.com")).
  reflexivity.
Defined.

(** X7. [create_user] keeps the invariants of storage, whatever its outcome
    and whatever else is pending in the session: rows stay stored under
    their own [id], and no two rows come to share a username or an email. *)
Theorem create_user_keeps_invariants (crypt_context : CryptContext)
  (user : Schemas.UserCreate) (w : World) :
  well_keyed (table w) ->
  unique_columns (table w) ->
  let w' := snd (UserRepository.create_user crypt_context user w) in
  well_keyed (table w') /\ unique_columns (table w').
Proof.
  intros Hkeyed Hunique. cbv zeta.
  destruct (create_user_storage crypt_context user w)
    as [->|(hashed_password & rows & tbl' & seq' & Hflush & ->)];
    [now split|].
  destruct (flush_invariants _ _ _ _ _ _ _ Hflush) as (_ & H1 & H2).
  split; auto.
Qed.

Lemma create_user_keeps_invariants_witness :
  well_keyed
    (table (snd (UserRepository.create_user padding_context bob
                   single_world))) /\
  unique_columns
    (table (snd (UserRepository.create_user padding_context bob
                   single_world))).
Proof.
  apply (create_user_keeps_invariants padding_context bob single_world
           single_world_well_keyed single_world_unique_columns).
Defined.

(** X8. A username or an email that a stored row already has is refused,
    whatever else is pending in the session: [create_user] raises (the
    domain error, once the password is hashed) and storage stays as it
    was. *)
Theorem create_user_taken (crypt_context : CryptContext)
  (user : Schemas.UserCreate) (w : World) (pk : Z) (row : Models.User) :
  table w !! pk = Some row ->
  Models.username row = Schemas.username user \/
  Models.email row = Schemas.email user ->
  let outcome := fst (UserRepository.create_user crypt_context user w) in
  let w' := snd (UserRepository.create_user crypt_context user w) in
  table w' = table w /\
  exists e,
    outcome = Raise e /\
    (fst (Password.get_password_hash crypt_context
            (Schemas.password user) w) = Raise e \/
     exists message, e = DatabaseException message).
Proof.
  intros Hrow Htaken. cbv zeta.
  destruct (Password.get_password_hash crypt_context
              (Schemas.password user) w) as [[hashed_password|e] w1] eqn:Hhash.
  - destruct (get_password_hash_session _ _ _ _ _ Hhash)
      as (Htable & _).
    pose proof (insert_cases
                  (UserRepository.build_row user hashed_password) w1)
      as Hcases. cbv zeta in Hcases.
    destruct (UserRepository.insert
                (UserRepository.build_row user hashed_password) w1)
      as [outcome w2] eqn:Hinsert; simpl in Hcases.
    destruct Hcases as [(Htable2 & sa_exc & -> & _)|
                        (rows & tbl' & seq' & Hflush & _)].
    + rewrite (create_user_insert_raises _ _ _ _ _ _ _ Hhash Hinsert). simpl.
      split; [congruence|]. eauto.
    + rewrite <- Htable in Hrow.
      pose proof (flush_taken (import_time w1)
                    (UserRepository.build_row user hashed_password)
                    (new w1) (table w1) (sequence w1) pk row Hrow Htaken)
        as Hnone.
      rewrite Hflush in Hnone. discriminate.
  - rewrite (create_user_hash_raises _ _ _ _ _ Hhash). simpl.
    split; [now destruct (get_password_hash_session _ _ _ _ _ Hhash)|].
    eauto.
Qed.

Lemma create_user_taken_witness :
  table (snd (UserRepository.create_user padding_context alice
                single_world)) = table single_world /\
  exists e,
    fst (UserRepository.create_user padding_context alice single_world) =
      Raise e /\
    (fst (Password.get_password_hash padding_context
            (Schemas.password alice) single_world) = Raise e \/
     exists message, e = DatabaseException message).
Proof.
  apply (create_user_taken padding_context alice single_world 1%Z
           (stored 1 "alice01" "alice@example.com")).
  - reflexivity.
  - left. reflexivity.
Defined.

(** An entity [create_user] returns was stored under a key that was free. *)
Lemma create_user_returns_fresh (crypt_context : CryptContext)
  (user : Schemas.UserCreate) (w w' : World) (created_user : Models.User) :
  UserRepository.create_user crypt_context user w =
    (Ok (Some created_user), w') ->
  exists hashed_password w1 pk,
    Password.get_password_hash crypt_context (Schemas.password user) w =
      (Ok hashed_password, w1) /\
    created_user =
      Models.persisted pk (import_time w)
        (UserRepository.build_row user hashed_password) /\
    table w !! pk = None /\
    table w' !! pk = Some created_user /\
    (well_keyed (table w) -> well_keyed (table w')) /\
    (unique_columns (table w) -> unique_columns (table w')).
Proof.
  intros Hcreate.
  destruct (create_user_returns_stored _ _ _ _ _ Hcreate)
    as (hashed_password & w1 & pk & Hhash & Hcreated & Hlookup).
  exists hashed_password, w1.
  destruct (get_password_hash_session _ _ _ _ _ Hhash)
    as (Htable & Hsequence & Hnew & _ & _ & Htime).
  pose proof (insert_cases
                (UserRepository.build_row user hashed_password) w1)
    as Hcases. cbv zeta in Hcases.
  destruct (UserRepository.insert
              (UserRepository.build_row user hashed_password) w1)
    as [[user_create|e] w2] eqn:Hinsert; simpl in Hcases.
  - destruct Hcases as [(_ & sa_exc & Habs & _)|
                        (rows & tbl' & seq' & Hflush & Hlast & Htable2 & _)];
      [discriminate|].
    rewrite (create_user_inserted _ _ _ _ _ _ _ Hhash Hinsert) in Hcreate.
    injection Hcreate as Houtcome Hw'.
    assert (table w' = tbl') as Htable'.
    { rewrite <- Hw'. simpl.
      destruct (read_by_id_effect (reread user_create) w2) as (_ & -> & _).
      assumption. }
    destruct (flush_invariants _ _ _ _ _ _ _ Hflush) as (_ & Hk & Hu).
    destruct (flush_last_fresh _ _ _ _ _ _ _ _ Hflush)
      as (rows0 & pk' & -> & Hstored & Hfree).
    rewrite last_last in Hlast. injection Hlast as ->.
    assert (created_user =
            Models.persisted pk' (import_time w1)
              (UserRepository.build_row user hashed_password)) as Hsame.
    { revert Houtcome.
      rewrite read_by_id_outcome, IndexFilter_filter_outcome. simpl.
      rewrite Htable2, Hstored. case_fault w2; congruence. }
    exists pk'. split; [exact Hhash|].
    split; [now rewrite <- Htime|]. split; [now rewrite <- Htable|].
    split; [now rewrite Htable', Hsame|].
    rewrite Htable', <- Htable. now split.
  - rewrite (create_user_insert_raises _ _ _ _ _ _ _ Hhash Hinsert)
      in Hcreate. discriminate.
Qed.

(** X9. An entity [create_user] returns has a key no row had before and is
    stored under it; it carries the hash as password, the username, email
    and names of the input, [is_active] true, [is_superuser] as supplied or
    else false, and the default creation time. *)
Theorem create_user_returns_new_entity (crypt_context : CryptContext)
  (user : Schemas.UserCreate) (w w' : World) (created_user : Models.User) :
  UserRepository.create_user crypt_context user w =
    (Ok (Some created_user), w') ->
  exists pk hashed_password,
    Models.id created_user = Some pk /\
    table w !! pk = None /\
    table w' !! pk = Some created_user /\
    fst (Password.get_password_hash crypt_context
           (Schemas.password user) w) = Ok hashed_password /\
    Models.password created_user = hashed_password /\
    Models.username created_user = Schemas.username user /\
    Models.email created_user = Schemas.email user /\
    Models.first_name created_user = Schemas.first_name user /\
    Models.last_name created_user = Schemas.last_name user /\
    Models.is_active created_user = Some true /\
    Models.is_superuser created_user =
      Some (default false (Schemas.is_superuser user)) /\
    Models.created_at created_user = Some (import_time w) /\
    Models.updated_at created_user = None.
Proof.
  intros Hcreate.
  destruct (create_user_returns_fresh _ _ _ _ _ Hcreate)
    as (hashed_password & w1 & pk & Hhash & -> & Hfree & Hstored & _).
  exists pk, hashed_password. rewrite Hhash.
  repeat (split; [first [reflexivity | assumption]|]). reflexivity.
Qed.

Lemma create_user_returns_new_entity_witness :
  exists pk hashed_password,
    Models.id (Models.persisted 2%Z 0%Z
                 (UserRepository.build_row bob (padded "Hk7pH9*35Fu&3U"))) =
      Some pk /\
    table single_world !! pk = None /\
    hashed_password = padded "Hk7pH9*35Fu&3U".
Proof.
  destruct (create_user_returns_new_entity padding_context bob single_world
              (snd (UserRepository.create_user padding_context bob
                      single_world))
              (Models.persisted 2%Z 0%Z
                 (UserRepository.build_row bob (padded "Hk7pH9*35Fu&3U"))))
    as (pk & hashed_password & Hid & Hfree & _ & Hhash & _).
  - vm_compute. reflexivity.
  - exists pk, hashed_password. split; [assumption|].
    split; [assumption|]. now injection Hhash as <-.
Defined.

(** ** Reading back what was created *)






(** ** create_user when the database fails *)

(** X11. The error "User could not be created." does not mean that nothing
    was created: when the insert has succeeded and the re-read returns
    [None], [create_user] raises, and the new row is in storage all the
    same, under a key that was free before the call. *)
Theorem create_user_raises_after_storing (crypt_context : CryptContext)
  (user : Schemas.UserCreate) (w w1 w2 : World) (hashed_password : string)
  (user_create : Models.User) :
  Password.get_password_hash crypt_context (Schemas.password user) w =
    (Ok hashed_password, w1) ->
  UserRepository.insert (UserRepository.build_row user hashed_password) w1 =
    (Ok user_create, w2) ->
  fst (UserRepository.read_by_id (reread user_create) w2) = Ok None ->
  let outcome := fst (UserRepository.create_user crypt_context user w) in
  let w' := snd (UserRepository.create_user crypt_context user w) in
  outcome = Raise (DatabaseException "User could not be created.") /\
  exists pk,
    Models.id user_create = Some pk /\
    Models.username user_create = Schemas.username user /\
    table w !! pk = None /\
    table w' !! pk = Some user_create.
Proof.
  intros Hhash Hinsert Hreread. cbv zeta.
  rewrite (create_user_inserted _ _ _ _ _ _ _ Hhash Hinsert). simpl.
  rewrite Hreread. split; [reflexivity|].
  destruct (get_password_hash_session _ _ _ _ _ Hhash) as (Htable & _).
  pose proof (insert_cases
                (UserRepository.build_row user hashed_password) w1)
    as Hcases. cbv zeta in Hcases. rewrite Hinsert in Hcases.
  simpl in Hcases.
  destruct Hcases as [(_ & sa_exc & Habs & _)|
                      (rows & tbl' & seq' & Hflush & Hlast & Htable2 & _)];
    [discriminate|].
  destruct (flush_last_fresh _ _ _ _ _ _ _ _ Hflush)
    as (rows0 & pk & -> & Hstored & Hfree).
  rewrite last_last in Hlast. injection Hlast as ->.
  exists pk. split; [reflexivity|]. split; [reflexivity|].
  split; [now rewrite <- Htable|].
  destruct (read_by_id_effect
              (reread (Models.persisted pk (import_time w1)
                         (UserRepository.build_row user hashed_password)))
              w2) as (_ & -> & _).
  now rewrite Htable2.
Qed.

Lemma create_user_raises_after_storing_witness :
  fst (UserRepository.create_user padding_context alice flaky_world) =
    Raise (DatabaseException "User could not be created.") /\
  exists pk,
    Models.id (Models.persisted 1%Z 0%Z
                 (UserRepository.build_row alice (padded "Valid$Pass1"))) =
      Some pk /\
    Models.username
      (Models.persisted 1%Z 0%Z
         (UserRepository.build_row alice (padded "Valid$Pass1"))) =
      "alice01" /\
    table flaky_world !! pk = None /\
    table (snd (UserRepository.create_user padding_context alice
                  flaky_world)) !! pk =
      Some (Models.persisted 1%Z 0%Z
              (UserRepository.build_row alice (padded "Valid$Pass1"))).
Proof.
  apply (create_user_raises_after_storing padding_context alice flaky_world
           (with_entropy 1 flaky_world)
           (snd (UserRepository.insert
                   (UserRepository.build_row alice (padded "Valid$Pass1"))
                   (with_entropy 1 flaky_world)))
           (padded "Valid$Pass1")
           (Models.persisted 1%Z 0%Z
              (UserRepository.build_row alice (padded "Valid$Pass1")))).
  - reflexivity.
  - vm_compute. reflexivity.
  - vm_compute. reflexivity.
Defined.

(** X12. When the round trip of the commit fails, [create_user] raises
    [DatabaseException] with the text of the failure, logs that text, makes
    no fetch, closes the session and leaves storage as it was. *)
Theorem create_user_commit_fails (crypt_context : CryptContext)
  (user : Schemas.UserCreate) (w w1 : World) (hashed_password : string)
  (message : string) (script : list (option string)) :
  Password.get_password_hash crypt_context (Schemas.password user) w =
    (Ok hashed_password, w1) ->
  faults w = Some message :: script ->
  let outcome := fst (UserRepository.create_user crypt_context user w) in
  let w' := snd (UserRepository.create_user crypt_context user w) in
  outcome = Raise (DatabaseException message) /\
  table w' = table w /\
  new w' = [] /\
  faults w' = script /\
  calls w' =
    (calls w ++
     [CallAdd (UserRepository.build_row user hashed_password); CallCommit;
      CallClose])%list /\
  log w' =
    (log w1 ++ [{| level := ERROR; msg := message; args := [] |}])%list.
Proof.
  intros Hhash Hfaults. cbv zeta.
  destruct (get_password_hash_session _ _ _ _ _ Hhash)
    as (Htable & _ & _ & Hfaults1 & Hcalls & _).
  rewrite Hfaults in Hfaults1.
  destruct (UserRepository.insert
              (UserRepository.build_row user hashed_password) w1)
    as [outcome w2] eqn:Hinsert.
  assert (outcome = Raise (DatabaseException message) /\
          table w2 = table w1 /\ faults w2 = script /\
          calls w2 =
            (calls w1 ++
             [CallAdd (UserRepository.build_row user hashed_password);
              CallCommit])%list /\
          log w2 =
            (log w1 ++ [{| level := ERROR; msg := message;
                           args := [] |}])%list)
    as (-> & Htable2 & Hfaults2 & Hcalls2 & Hlog2).
  { revert Hinsert.
    unfold UserRepository.insert, Session.commit. unfold_coroutine. simpl.
    rewrite Hfaults1. simpl. intros [= <- <-]. simpl.
    rewrite <- app_assoc. auto. }
  rewrite (create_user_insert_raises _ _ _ _ _ _ _ Hhash Hinsert). simpl.
  rewrite Htable2, Htable, Hfaults2, Hcalls2, Hcalls, Hlog2.
  rewrite <- app_assoc. auto 10.
Qed.

Lemma create_user_commit_fails_witness :
  fst (UserRepository.create_user padding_context alice
         (with_faults [Some "connection lost"] single_world)) =
    Raise (DatabaseException "connection lost") /\
  table (snd (UserRepository.create_user padding_context alice
                (with_faults [Some "connection lost"] single_world))) =
    table single_world.
Proof.
  destruct (create_user_commit_fails padding_context alice
              (with_faults [Some "connection lost"] single_world)
              (with_entropy 1
                 (with_faults [Some "connection lost"] single_world))
              (padded "Valid$Pass1") "connection lost" [])
    as (Houtcome & Htable & _); [reflexivity | reflexivity |].
  split; assumption.
Defined.

(** * Strings *)

Lemma string_append_assoc (s1 s2 s3 : string) :
  (s1 ++ s2) ++ s3 = s1 ++ (s2 ++ s3).
Proof.
  induction s1 as [|c s1 IH]; [reflexivity|].
  change (String c ((s1 ++ s2) ++ s3) = String c (s1 ++ (s2 ++ s3))).
  now f_equal.
Qed.

Lemma string_append_nil (s : string) : s ++ "" = s.
Proof.
  induction s as [|c s IH]; [reflexivity|].
  change (String c (s ++ "") = String c s). now f_equal.
Qed.

Lemma ceil_half_bounds (n : nat) : n <= 2 * PyStr.ceil_half n <= S n.
Proof.
  unfold PyStr.ceil_half. rewrite Nat.div2_div.
  pose proof (Nat.div_mod_eq (S n) 2).
  pose proof (Nat.mod_upper_bound (S n) 2). lia.
Qed.

Lemma times_length (c : ascii) (n : nat) :
  String.length (PyStr.times c n) = n.
Proof. induction n as [|n IH]; simpl; [reflexivity | now rewrite IH]. Qed.

Lemma times_count (c : ascii) (n : nat) :
  PyStr.count c (PyStr.times c n) = n.
Proof.
  induction n as [|n IH]; simpl; [reflexivity|].
  now rewrite Ascii.eqb_refl, IH.
Qed.

Lemma count_append (c : ascii) (s1 s2 : string) :
  PyStr.count c (s1 ++ s2) = PyStr.count c s1 + PyStr.count c s2.
Proof.
  induction s1 as [|c' s1 IH]; simpl; [reflexivity|]. rewrite IH. lia.
Qed.

(** *** split and join *)

Lemma split_length (sep : ascii) (s : string) :
  length (PyStr.split sep s) = S (PyStr.count sep s).
Proof.
  induction s as [|c s IH]; simpl; [reflexivity|].
  destruct (Ascii.eqb c sep); simpl; [now rewrite IH|].
  destruct (PyStr.split sep s); simpl in *; lia.
Qed.

Lemma split_none (sep : ascii) (s : string) :
  PyStr.count sep s = 0 -> PyStr.split sep s = [s].
Proof.
  induction s as [|c s IH]; simpl; [reflexivity|].
  destruct (Ascii.eqb c sep); simpl; [discriminate|].
  intros Hcount. now rewrite IH.
Qed.

Lemma split_append (sep : ascii) (s1 s2 : string) :
  PyStr.count sep s1 = 0 ->
  PyStr.split sep (s1 ++ String sep s2) = s1 :: PyStr.split sep s2.
Proof.
  induction s1 as [|c s1 IH]; simpl.
  - intros _. now rewrite Ascii.eqb_refl.
  - destruct (Ascii.eqb c sep); simpl; [discriminate|].
    intros Hcount. now rewrite IH.
Qed.

(** Joining the pieces of a split with the separator gives the string
    back. *)
Lemma join_split (sep : ascii) (s : string) :
  PyStr.join (String sep "") (PyStr.split sep s) = s.
Proof.
  induction s as [|c s IH]; [reflexivity|]. simpl PyStr.split.
  pose proof (split_length sep s) as Hlength.
  destruct (Ascii.eqb_spec c sep) as [->|Hne].
  - destruct (PyStr.split sep s) as [|piece pieces];
      [discriminate|].
    change (PyStr.join (String sep "") ("" :: piece :: pieces))
      with ("" ++ String sep "" ++ PyStr.join (String sep "") (piece :: pieces)).
    now rewrite IH.
  - destruct (PyStr.split sep s) as [|piece pieces];
      [discriminate|].
    destruct pieces as [|piece' pieces].
    + simpl in *. now rewrite IH.
    + change (PyStr.join (String sep "") (String c piece :: piece' :: pieces))
        with (String c (piece ++ String sep "" ++
                        PyStr.join (String sep "") (piece' :: pieces))).
      f_equal. exact IH.
Qed.

(** *** Slices and prefixes *)

Lemma drop_length (n : nat) (s : string) :
  String.length (PyStr.drop n s) = String.length s - n.
Proof.
  revert s. induction n as [|n IH]; intros [|c s]; simpl; auto with arith.
Qed.

Lemma drop_suffix (n : nat) (s : string) :
  exists before, s = before ++ PyStr.drop n s.
Proof.
  revert s. induction n as [|n IH]; intros s.
  - now exists "".
  - destruct s as [|c s]; [now exists ""|].
    destruct (IH s) as [before Hbefore].
    exists (String c before).
    change (String c s = String c (before ++ PyStr.drop n s)).
    now f_equal.
Qed.

Lemma drop_append (s1 s2 : string) :
  PyStr.drop (String.length s1) (s1 ++ s2) = s2.
Proof. induction s1 as [|c s1 IH]; [now destruct s2 | exact IH]. Qed.

Lemma startswith_append (s1 s2 : string) :
  PyStr.startswith (s1 ++ s2) s1 = true.
Proof.
  induction s1 as [|c s1 IH]; simpl; [reflexivity|].
  now rewrite Ascii.eqb_refl.
Qed.

Lemma startswith_length (s prefix : string) :
  PyStr.startswith s prefix = true ->
  String.length prefix <= String.length s.
Proof.
  revert s. induction prefix as [|a prefix IH]; intros [|b s]; simpl;
    try lia; try discriminate.
  intros H. apply andb_true_iff in H as [_ H]. apply IH in H. lia.
Qed.

(** *** replace *)

(** With [old] and [new] of the same length, the scan keeps the length of
    what is left to read. *)
Lemma replace_scan_length (old new : string) :
  old <> "" ->
  String.length new = String.length old ->
  forall (s : string) (skip : nat),
    skip <= String.length s ->
    String.length (PyStr.replace_scan old new skip s) =
    String.length s - skip.
Proof.
  intros Hold Hsame.
  assert (1 <= String.length old) as Hpositive
    by (destruct old; [contradiction | simpl; lia]).
  induction s as [|c s IH]; intros skip Hskip; [reflexivity|].
  simpl PyStr.replace_scan. destruct skip as [|skip].
  - destruct (PyStr.startswith (String c s) old) eqn:Hstarts.
    + apply startswith_length in Hstarts. simpl in Hstarts.
      rewrite string_length_append, Hsame, IH by lia. simpl. lia.
    + simpl. rewrite IH by lia. lia.
  - simpl in *. apply IH. lia.
Qed.

(** Where [old] occurs, at least one [new] is written. *)
Lemma replace_scan_count (c : ascii) (old new : string) :
  old <> "" ->
  forall before after : string,
    PyStr.count c new <=
    PyStr.count c (PyStr.replace_scan old new 0 (before ++ old ++ after)).
Proof.
  intros Hold. induction before as [|b before IH]; intros after.
  - destruct old as [|a old]; [contradiction|].
    change ("" ++ String a old ++ after) with (String a (old ++ after)).
    simpl PyStr.replace_scan.
    rewrite startswith_append, Ascii.eqb_refl. cbn [andb].
    rewrite count_append. lia.
  - change (String b before ++ old ++ after)
      with (String b (before ++ old ++ after)).
    simpl PyStr.replace_scan.
    destruct (PyStr.startswith _ old).
    + rewrite count_append. lia.
    + simpl. specialize (IH after). lia.
Qed.

(** * hide_email *)

(** On a non-empty string the masking is a scan for its own last half. *)
Lemma masked_scan (s : string) :
  s <> "" ->
  exists (old before : string) (n : nat),
    Utils.masked s = PyStr.replace_scan old (PyStr.times "*" n) 0 s /\
    old <> "" /\ String.length old = n /\ String.length s <= 2 * n /\
    s = before ++ old.
Proof.
  intros Hs.
  assert (1 <= String.length s) as Hlength
    by (destruct s; [contradiction | simpl; lia]).
  pose proof (ceil_half_bounds (String.length s)) as Hhalf.
  unfold Utils.masked. cbv zeta.
  set (n := Nat.max (PyStr.ceil_half (String.length s)) 1).
  assert (1 <= n <= String.length s /\ String.length s <= 2 * n)
    as [[Hn1 Hn2] Hn3] by lia.
  unfold PyStr.last_chars. destruct n as [|n'] eqn:Hn; [lia|].
  rewrite <- Hn in *.
  set (old := PyStr.drop (String.length s - n) s).
  assert (String.length old = n) as Hold
    by (unfold old; rewrite drop_length; lia).
  destruct (drop_suffix (String.length s - n) s) as [before Hbefore].
  fold old in Hbefore.
  exists old, before, n.
  assert (old <> "") as Hnonempty
    by (intros Hempty; rewrite Hempty in Hold; simpl in Hold; lia).
  repeat split; try assumption.
  unfold PyStr.replace. destruct old; [contradiction | reflexivity].
Qed.

(** X13. The masking [hide_email] applies to the local part and to the
    first label of the domain: an empty string becomes one asterisk; a
    non-empty string keeps its length; and in both cases the result
    holds at least one asterisk and at least half as many asterisks as the
    string has characters. *)
Theorem masked_properties (s : string) :
  (s = "" -> Utils.masked s = "*") /\
  (s <> "" -> String.length (Utils.masked s) = String.length s) /\
  1 <= PyStr.count "*" (Utils.masked s) /\
  String.length s <= 2 * PyStr.count "*" (Utils.masked s).
Proof.
  destruct (String.eqb_spec s "") as [->|Hs].
  - split; [reflexivity|]. split; [contradiction|].
    split; [vm_compute; lia | simpl; lia].
  - destruct (masked_scan s Hs)
      as (old & before & n & -> & Hold & Hlength & Hhalf & Hbefore).
    assert (n <= PyStr.count "*"
                   (PyStr.replace_scan old (PyStr.times "*" n) 0 s))
      as Hcount.
    { rewrite Hbefore at 1. rewrite <- (string_append_nil old) at 2.
      rewrite <- (times_count "*" n) at 1.
      now apply replace_scan_count. }
    assert (1 <= n) by (destruct old; [contradiction | simpl in *; lia]).
    split; [contradiction|]. split; [|lia].
    intros _. rewrite replace_scan_length; try assumption; try lia.
    now rewrite times_length.
Qed.

Lemma masked_properties_witness :
  String.length (Utils.masked "aaa") = 3 /\
  2 <= PyStr.count "*" (Utils.masked "aaa") /\
  Utils.masked "aaa" = "**a".
Proof.
  destruct (masked_properties "aaa") as (_ & Hlength & _ & Hcount).
  split; [apply Hlength; discriminate|].
  split; [simpl String.length in Hcount; lia | reflexivity].
Defined.

(** X14. [hide_email] returns exactly when the address has one "@"; with
    none or with several, the unpacking of the split raises [ValueError].
    In neither case does it touch the world. *)
Theorem hide_email_needs_one_at (email : string) (w : World) :
  (PyStr.count "@" email = 1 ->
   exists hidden_email, Utils.hide_email email w = (Ok hidden_email, w)) /\
  (PyStr.count "@" email <> 1 ->
   exists message,
     Utils.hide_email email w = (Raise (ValueError message), w)).
Proof.
  pose proof (split_length "@" email) as Hlength.
  unfold Utils.hide_email, with_logging.
  destruct (PyStr.split "@" email)
    as [|email_title [|email_domain [|extra pieces]]];
    simpl in Hlength; split; intros Hcount; try lia;
    eexists; reflexivity.
Qed.

Lemma hide_email_needs_one_at_witness :
  (exists hidden_email,
     Utils.hide_email "alice@example.com" empty_world =
       (Ok hidden_email, empty_world)) /\
  (exists message,
     Utils.hide_email "alice(at)example.com" empty_world =
       (Raise (ValueError message), empty_world)).
Proof.
  split.
  - apply (proj1 (hide_email_needs_one_at "alice@example.com" empty_world)).
    reflexivity.
  - apply (proj2 (hide_email_needs_one_at "alice(at)example.com"
                    empty_world)).
    vm_compute. discriminate.
Defined.

(** X15. For an address made of a local part, "@", a first label, "." and
    the rest of the domain, [hide_email] masks the local part and the first
    label and returns everything after the first dot of the domain as it
    was. *)
Theorem hide_email_masks (title first rest : string) (w : World) :
  PyStr.count "@" title = 0 ->
  PyStr.count "@" (first ++ "." ++ rest) = 0 ->
  PyStr.count "." first = 0 ->
  Utils.hide_email (title ++ "@" ++ first ++ "." ++ rest) w =
    (Ok (Utils.masked title ++ "@" ++ Utils.masked first ++ "." ++ rest), w).
Proof.
  intros Htitle Hdomain Hfirst.
  unfold Utils.hide_email, with_logging.
  change (title ++ "@" ++ first ++ "." ++ rest)
    with (title ++ String "@" (first ++ "." ++ rest)).
  rewrite (split_append "@" title _ Htitle).
  rewrite (split_none "@" _ Hdomain).
  change (first ++ "." ++ rest) with (first ++ String "." rest).
  rewrite (split_append "." first rest Hfirst).
  cbn [hd tl].
  change "."%string with (String "."%char "") at 2.
  rewrite join_split. reflexivity.
Qed.

Lemma hide_email_masks_witness :
  Utils.hide_email "alice@example.com" empty_world =
    (Ok "al***@exa****.com", empty_world).
Proof.
  apply (hide_email_masks "alice" "example" "com" empty_world);
    reflexivity.
Defined.

(** X16. For a domain without a dot, [hide_email] masks the whole domain as
    the first label and ends the result with a dot the address did not
    have. *)
Theorem hide_email_appends_dot (title domain : string) (w : World) :
  PyStr.count "@" title = 0 ->
  PyStr.count "@" domain = 0 ->
  PyStr.count "." domain = 0 ->
  Utils.hide_email (title ++ "@" ++ domain) w =
    (Ok (Utils.masked title ++ "@" ++ Utils.masked domain ++ "."), w).
Proof.
  intros Htitle Hdomain Hdots.
  unfold Utils.hide_email, with_logging.
  change (title ++ "@" ++ domain) with (title ++ String "@" domain).
  rewrite (split_append "@" title _ Htitle).
  rewrite (split_none "@" _ Hdomain).
  rewrite (split_none "." _ Hdots).
  reflexivity.
Qed.

Lemma hide_email_appends_dot_witness :
  Utils.hide_email "user@localhost" empty_world =
    (Ok "us**@loca*****.", empty_world).
Proof.
  apply (hide_email_appends_dot "user" "localhost" empty_world);
    reflexivity.
Defined.

(** * Operation ids *)

(** X17. The id [custom_generate_unique_id] gives a tagged route is the
    first tag, a dash and the name of the route, and
    [remove_tag_from_operation_id] with that tag gives the name back.  A
    route without tags has no id (the subscript raises), unless it is the
    welcome route, whose id is empty. *)
Theorem operation_id_round_trip (route : Main.APIRoute) (w : World) :
  Main.name route <> "welcome_message" ->
  match Main.tags route with
  | tag :: _ =>
      exists operation_id,
        Main.custom_generate_unique_id route = Some operation_id /\
        operation_id = tag ++ "-" ++ Main.name route /\
        OpenAPI.remove_tag_from_operation_id tag operation_id w =
          (Ok (Main.name route), w)
  | [] => Main.custom_generate_unique_id route = None
  end.
Proof.
  intros Hname. unfold Main.custom_generate_unique_id.
  apply String.eqb_neq in Hname. rewrite Hname.
  destruct (Main.tags route) as [|tag tags]; [reflexivity|].
  eexists. split; [reflexivity|]. split; [reflexivity|].
  unfold OpenAPI.remove_tag_from_operation_id, PyStr.removeprefix, ret.
  rewrite <- string_append_assoc.
  now rewrite startswith_append, drop_append.
Qed.

Lemma operation_id_round_trip_witness :
  exists operation_id,
    Main.custom_generate_unique_id
      {| Main.name := "create_user"; Main.tags := ["users"] |} =
      Some operation_id /\
    operation_id = "users-create_user" /\
    OpenAPI.remove_tag_from_operation_id "users" operation_id empty_world =
      (Ok "create_user", empty_world).
Proof.
  apply (operation_id_round_trip
           {| Main.name := "create_user"; Main.tags := ["users"] |}
           empty_world).
  discriminate.
Defined.

(** * Settings *)

Lemma copy_if_set_lookup (values contact : gmap string Config.Value)
  (key name name' : string) :
  Config.copy_if_set values key name contact !! name' =
  if decide (name = name')
  then match Config.set_entry values key with
       | Some value => Some value
       | None => contact !! name'
       end
  else contact !! name'.
Proof.
  unfold Config.copy_if_set, Config.set_entry.
  destruct (values !! key) as [value|]; [|now destruct (decide _)].
  destruct (Config.truthy value); [|now destruct (decide _)].
  destruct (decide (name = name')) as [->|Hne].
  - apply lookup_insert_eq.
  - now apply lookup_insert_ne.
Qed.

(** X18. [assemble_contact] moves the contact settings into one entry: the
    result has no "CONTACT_NAME", "CONTACT_URL" or "CONTACT_EMAIL"; its
    "CONTACT" is a dictionary holding under "name", "url" and "email" those
    of the three that were set to something true, and nothing else; every
    other key keeps the value it had. *)
Theorem assemble_contact_moves_contact (values : gmap string Config.Value) :
  let result := Config.assemble_contact values in
  (forall key, In key Config.contact_keys -> result !! key = None) /\
  (forall key,
     ~ In key Config.contact_keys -> key <> "CONTACT" ->
     result !! key = values !! key) /\
  exists contact,
    result !! "CONTACT" = Some (Config.CDict contact) /\
    contact !! "name" = Config.set_entry values "CONTACT_NAME" /\
    contact !! "url" = Config.set_entry values "CONTACT_URL" /\
    contact !! "email" = Config.set_entry values "CONTACT_EMAIL" /\
    (forall name value,
       contact !! name = Some value ->
       Config.truthy value = true /\ In name ["name"; "url"; "email"]).
Proof.
  cbv zeta. unfold Config.assemble_contact. split; [|split].
  - intros key Hkey. apply map_lookup_filter_None. right.
    intros value _. simpl. rewrite bool_decide_eq_true_2 by assumption.
    discriminate.
  - intros key Hkey Hcontact.
    destruct (values !! key) as [value|] eqn:Hvalue.
    + apply map_lookup_filter_Some. split.
      * now rewrite lookup_insert_ne by congruence.
      * simpl. now rewrite bool_decide_eq_false_2.
    + apply map_lookup_filter_None. left.
      now rewrite lookup_insert_ne by congruence.
  - eexists. split.
    + apply map_lookup_filter_Some. split; [apply lookup_insert_eq|].
      reflexivity.
    + rewrite !copy_if_set_lookup. simpl.
      rewrite !lookup_empty.
      split; [now destruct (Config.set_entry values "CONTACT_NAME")|].
      split; [now destruct (Config.set_entry values "CONTACT_URL")|].
      split; [now destruct (Config.set_entry values "CONTACT_EMAIL")|].
      intros name value. rewrite !copy_if_set_lookup, lookup_empty.
      assert (forall key value',
                Config.set_entry values key = Some value' ->
                Config.truthy value' = true) as Htruthy.
      { intros key value'. unfold Config.set_entry.
        destruct (values !! key) as [v|]; [|discriminate].
        destruct (Config.truthy v) eqn:Hv; [|discriminate].
        now intros [= <-]. }
      repeat case_decide; subst; try done;
        repeat match goal with
               | |- context [Config.set_entry values ?key] =>
                   let H := fresh "Hset" in
                   destruct (Config.set_entry values key) eqn:H
               end;
        try done; intros [= <-]; (split; [eauto | simpl; auto]).
Qed.

Lemma assemble_contact_moves_contact_witness :
  Config.assemble_contact contact_settings !! "CONTACT_NAME" = None /\
  Config.assemble_contact contact_settings !! "PROJECT_NAME" =
    Some (Config.CStr "telegram-bot") /\
  exists contact,
    Config.assemble_contact contact_settings !! "CONTACT" =
      Some (Config.CDict contact) /\
    contact !! "name" = Some (Config.CStr "Ada") /\
    contact !! "url" = None.
Proof.
  destruct (assemble_contact_moves_contact contact_settings)
    as (Hgone & Hkept & contact & Hcontact & Hname & Hurl & _).
  split; [apply Hgone; simpl; auto|].
  split.
  - rewrite Hkept; [reflexivity | |discriminate].
    simpl. intros [H|[H|[H|[]]]]; discriminate.
  - exists contact. split; [assumption|].
    split; [rewrite Hname | rewrite Hurl]; reflexivity.
Defined.

(** * Sending mail *)

(** X19. [send_message] never returns false.  What it returns is [True], or
    the error text that begins "error sending email to", and both are true
    values: a caller that reads the result as "was it sent" reads a failure
    as a success.  What it raises is never an error of the SMTP family. *)
Theorem send_message_never_false (email_to : string)
  (message : Mail.MIMEText) (settings : Mail.Settings) (s : Mail.Server) :
  match fst (Mail.send_message email_to message settings s) with
  | Mail.Done value =>
      Mail.truthy value = true /\
      (value = Mail.RBool true \/
       exists exc,
         value =
           Mail.RStr ("error sending email to " ++ email_to ++ "." ++
                      Mail.newline ++ exc))
  | Mail.Raised failure => exists text, failure = Mail.OtherException text
  end.
Proof.
  unfold Mail.send_message, Mail.try_except_SMTPException.
  unfold Mail.bind at 1.
  destruct (Mail.with_SMTP _ _ _ _ s) as [[[]|[exc|text]] s1]; simpl.
  - split; [reflexivity | now left].
  - split; [reflexivity | right; now exists exc].
  - now exists text.
Qed.

(** X20. [login_to_smtp] logs in only when both a user and a password are
    set, and turns an SMTP error of the login into [False] and a log
    record; any other exception passes through.  Without credentials it
    returns [True] and leaves the connection untouched. *)
Theorem login_to_smtp_outcomes (setting : Mail.Settings) (s : Mail.Server) :
  let result := Mail.login_to_smtp setting s in
  if negb (String.eqb (Mail.SMTP_USER setting) "")
     && negb (String.eqb (Mail.SMTP_PASSWORD setting) "")
  then
    Mail.sent (snd result) =
      (Mail.sent s ++
       [Mail.Login (Mail.SMTP_USER setting)
          (Mail.SMTP_PASSWORD setting)])%list /\
    match head (Mail.script s) with
    | Some (Some (Mail.SMTPException exc)) =>
        fst result = Mail.Done false /\
        Mail.journal (snd result) =
          (Mail.journal s ++
           [{| level := ERROR;
               msg := "SMTP login error." ++ Mail.newline ++ "%s";
               args := [VStr exc] |}])%list
    | Some (Some (Mail.OtherException text)) =>
        fst result = Mail.Raised (Mail.OtherException text)
    | _ => fst result = Mail.Done true /\ Mail.journal (snd result) =
                                           Mail.journal s
    end
  else result = (Mail.Done true, s).
Proof.
  cbv zeta. unfold Mail.login_to_smtp.
  destruct (negb _ && negb _); [|reflexivity].
  unfold Mail.try_except_SMTPException, Mail.bind, Mail.smtp, Mail.logger,
    Mail.ret.
  destruct (Mail.script s) as [|[[exc|text]|] rest]; simpl; auto.
Qed.

(** X21. A refused login does not stop the send.  With credentials set,
    when the connection (and the STARTTLS, if TLS is on) go through and the
    login raises an SMTP error, [send_message] still calls [sendmail], and
    if that and the QUIT go through it returns [True], having logged the
    login error and then the "sent" record. *)
Theorem send_message_after_refused_login (email_to exc : string)
  (message : Mail.MIMEText) (settings : Mail.Settings) (s : Mail.Server)
  (rest : list (option Mail.Failure)) :
  Mail.SMTP_USER settings <> "" ->
  Mail.SMTP_PASSWORD settings <> "" ->
  Mail.script s =
    (None :: (if Mail.SMTP_TLS settings then [None] else []) ++
     Some (Mail.SMTPException exc) :: None :: None :: rest)%list ->
  let result := Mail.send_message email_to message settings s in
  fst result = Mail.Done (Mail.RBool true) /\
  Mail.sent (snd result) =
    (Mail.sent s ++
     Mail.Connect (Mail.SMTP_HOST settings) (Mail.SMTP_PORT settings)
       (Mail.MAIL_TIMEOUT settings) ::
     (if Mail.SMTP_TLS settings then [Mail.StartTLS] else []) ++
     [Mail.Login (Mail.SMTP_USER settings) (Mail.SMTP_PASSWORD settings);
      Mail.SendMail (Mail.str_optional (Mail.EMAILS_FROM_EMAIL settings))
        [email_to] message;
      Mail.Quit])%list /\
  Mail.journal (snd result) =
    (Mail.journal s ++
     [{| level := ERROR;
         msg := "SMTP login error." ++ Mail.newline ++ "%s";
         args := [VStr exc] |};
      {| level := INFO; msg := "sent email to %s";
         args := [VStr email_to] |}])%list /\
  Mail.script (snd result) = rest.
Proof.
  intros Huser Hpassword Hscript. cbv zeta.
  apply String.eqb_neq in Huser, Hpassword.
  unfold Mail.send_message, Mail.login_to_smtp, Mail.smtp_options,
    Mail.with_SMTP, Mail.try_except_SMTPException, Mail.bind, Mail.smtp,
    Mail.logger, Mail.ret.
  simpl. rewrite Huser, Hpassword, Hscript.
  destruct (Mail.SMTP_TLS settings); simpl;
    rewrite <- ?app_assoc; simpl; auto.
Qed.

Lemma send_message_after_refused_login_witness :
  fst (Mail.send_message "alice@example.com" test_message mail_settings
         refusing_server) = Mail.Done (Mail.RBool true) /\
  Mail.sent (snd (Mail.send_message "alice@example.com" test_message
                    mail_settings refusing_server)) =
    [Mail.Connect "smtp.example.com" 587 10;
     Mail.Login "mailer" "secret";
     Mail.SendMail "noreply@example.com" ["alice@example.com"] test_message;
     Mail.Quit].
Proof.
  destruct (send_message_after_refused_login "alice@example.com"
              "authentication failed" test_message mail_settings
              refusing_server [])
    as (Houtcome & Hsent & _); try discriminate; [reflexivity|].
  split; assumption.
Defined.
